(** * creme: Hedge ensemble and higher-order factorization machines

    A shallow embedding of [creme/facto/hofm.py] and
    [creme/ensemble/hedging.py].  Python floats are read as real numbers
    (exact arithmetic), numpy scalars, where a division by zero matters,
    as a real number, an infinity or nan; Python exceptions are carried
    by an error monad. *)

From Stdlib Require Import String.
From Stdlib Require Import Reals List ZArith Lia Lra Bool Arith.
From Stdlib Require Import Permutation.
Import ListNotations.
Local Open Scope R_scope.

(** ** The Python fragment the two modules rely on *)

Module Py.

Inductive exn : Type :=
| KeyError
| TypeError
| IndexError
| ZeroDivisionError
| OverflowError.

Inductive result (A : Type) : Type :=
| Ok (a : A)
| Raise (e : exn).
Arguments Ok {A} a.
Arguments Raise {A} e.

Definition bind {A B : Type} (m : result A) (k : A -> result B) : result B :=
  match m with
  | Ok a => k a
  | Raise e => Raise e
  end.

Definition raises {A : Type} (m : result A) : Prop :=
  exists e, m = Raise e.

(** The only exception a computation can raise is [ZeroDivisionError]. *)
Definition only_zero_division {A : Type} (m : result A) : Prop :=
  match m with
  | Ok _ => True
  | Raise e => e = ZeroDivisionError
  end.

(** [range(lo, hi)] for a natural lower bound and an integer upper bound. *)
Definition range (lo : nat) (hi : Z) : list nat :=
  seq lo (Z.to_nat (hi - Z.of_nat lo)).

(** [a / b] on floats: a zero divisor raises. *)
Definition truediv (a b : R) : result R :=
  if Req_dec_T b 0 then Raise ZeroDivisionError else Ok (a / b).

(** [if total:] on a float. *)
Definition truthy (a : R) : bool :=
  if Req_dec_T a 0 then false else true.

(** [sum(iterable)]: left to right from 0; the items of a generator are
    computed on demand, so the first failing item aborts the sum. *)
Fixpoint sum_from (acc : R) (items : list (result R)) : result R :=
  match items with
  | [] => Ok acc
  | item :: rest => bind item (fun a => sum_from (acc + a) rest)
  end.

Definition sum (items : list (result R)) : result R := sum_from 0 items.

(** [functools.reduce(lambda x, y: x * y, iterable)] without initial
    value: an empty iterable is a [TypeError]. *)
Fixpoint reduce_from (acc : R) (items : list (result R)) : result R :=
  match items with
  | [] => Ok acc
  | item :: rest => bind item (fun a => reduce_from (acc * a) rest)
  end.

Definition reduce_mul (items : list (result R)) : result R :=
  match items with
  | [] => Raise TypeError
  | item :: rest => bind item (fun a => reduce_from a rest)
  end.

(** [itertools.combinations(pool, r)], in the order itertools emits. *)
Fixpoint combinations {A : Type} (pool : list A) (r : nat) : list (list A) :=
  match pool with
  | [] => match r with O => [[]] | S _ => [] end
  | a :: rest =>
      match r with
      | O => [[]]
      | S r' => map (cons a) (combinations rest r') ++ combinations rest r
      end
  end.

(** A [for] loop whose body may raise, threading the loop state. *)
Fixpoint for_each {A S : Type} (items : list A) (body : A -> S -> result S)
         (s : S) : result S :=
  match items with
  | [] => Ok s
  | a :: rest => bind (body a s) (for_each rest body)
  end.

(** [lst[i]] and [lst[i] = v] on a list. *)
Definition list_get {A : Type} (l : list A) (i : nat) : result A :=
  match nth_error l i with
  | Some a => Ok a
  | None => Raise IndexError
  end.

Fixpoint list_set {A : Type} (l : list A) (i : nat) (v : A) : list A :=
  match l, i with
  | [], _ => []
  | _ :: t, O => v :: t
  | a :: t, S i' => a :: list_set t i' v
  end.

Section Dict.
Variable Key : Type.
Variable Key_eq_dec : forall a b : Key, {a = b} + {a <> b}.

(** A feature dict, in insertion order. *)
Definition dict : Type := list (Key * R).

Definition keys (x : dict) : list Key := map fst x.

Fixpoint getitem (x : dict) (j : Key) : result R :=
  match x with
  | [] => Raise KeyError
  | (k, a) :: rest => if Key_eq_dec k j then Ok a else getitem rest j
  end.
End Dict.
Arguments keys {Key} x.
Arguments getitem {Key} Key_eq_dec x j.

End Py.

Import Py.

Notation "x <- m ;; k" := (Py.bind m (fun x => k))
  (at level 61, m at next level, right associativity).

(** ** creme/facto/hofm.py *)

Module HOFM.
Section Model.
Variable Key : Type.
Variable Key_eq_dec : forall a b : Key, {a = b} + {a <> b}.

(** The latent optimizer is an external collaborator: a state and its
    [update_after_pred(w, g)], which returns the new vector. *)
Variable Opt : Type.
Variable update_after_pred : Opt -> (nat -> R) -> list R -> Opt * (nat -> R).

(** [utils.math.sign], from a module outside this file. *)
Variable sign : R -> R.

(** [self.latents] is a defaultdict of defaultdicts of vectors with
    [n_factors] components, filled by the initializer on first access
    and only read at [f] in [range(n_factors)]: a total table, holding
    the vectors as they are once created.  [LazyLatents] has the creation
    on first access. *)
Definition latent_table : Type := Key -> nat -> nat -> R.

(** The attributes the base class [BaseFM] holds and this file reads. *)
Record BaseFM : Type := {
  n_factors : Z;
  l1_weight : R;
  l2_weight : R;
  l1_latent : R;
  l2_latent : R;
  weights : Key -> R;
  latents : latent_table;
  latent_optimizer : Opt
}.

Record t : Type := {
  base : BaseFM;
  degree : Z
}.

(** [HOFM.__init__]: the base class initialiser receives every argument
    but [degree], which is stored afterwards. *)
Definition __init__ {Args : Type} (base_init : Args -> result BaseFM)
           (degree : Z) (args : Args) : result t :=
  b <- base_init args ;;
  Ok {| base := b; degree := degree |}.

Definition _calculate_interaction (self : t) (x : dict Key) (l : nat)
           (combination : list Key) : result R :=
  feature_product <- reduce_mul (map (getitem Key_eq_dec x) combination) ;;
  latent_scalar_product <-
    sum (map (fun f =>
                reduce_mul (map (fun j => Ok (latents (base self) j l f))
                                combination))
             (range 0 (n_factors (base self)))) ;;
  Ok (feature_product * latent_scalar_product).

Definition _calculate_interactions (self : t) (x : dict Key) : result R :=
  sum (flat_map (fun l =>
                   map (_calculate_interaction self x l)
                       (combinations (keys x) l))
                (range 2 (degree self + 1))).

Definition _calculate_weights_gradients (self : t) (x : dict Key)
           (g_loss : R) : list (Key * R) :=
  let w := weights (base self) in
  let l1 := l1_weight (base self) in
  let l2 := l2_weight (base self) in
  map (fun '(j, xj) => (j, g_loss * xj + l1 * sign (w j) + l2 * w j)) x.

(** [gradients]: nested defaultdicts ending in [defaultdict(float)]. *)
Definition gradient_table : Type := Key -> nat -> nat -> R.

Definition no_gradients : gradient_table := fun _ _ _ => 0.

Definition table_set (T : Key -> nat -> nat -> R) (j : Key) (l f : nat)
           (a : R) : Key -> nat -> nat -> R :=
  fun j' l' f' =>
    if Key_eq_dec j' j then
      if Nat.eq_dec l' l then
        if Nat.eq_dec f' f then a else T j' l' f'
      else T j' l' f'
    else T j' l' f'.

(** Lines 92-101: the accumulation of every latent gradient, with the
    latent components read as Python floats.  [Numpy.accumulate_combination]
    is the same loop on the numpy vectors the latent initializer returns;
    the two differ only when a divisor of line 101 is zero. *)
Definition accumulate_combination (v : latent_table) (x : dict Key)
           (nf : Z) (l : nat) (combination : list Key)
           (gradients : gradient_table) : result gradient_table :=
  feature_product <- reduce_mul (map (getitem Key_eq_dec x) combination) ;;
  for_each (range 0 nf)
    (fun f gradients =>
       latent_product <-
         reduce_mul (map (fun j => Ok (v j l f)) combination) ;;
       for_each combination
         (fun j gradients =>
            d <- truediv (feature_product * latent_product) (v j l f) ;;
            Ok (table_set gradients j l f (gradients j l f + d)))
         gradients)
    gradients.

Definition accumulate_gradients (self : t) (x : dict Key)
  : result gradient_table :=
  let v := latents (base self) in
  for_each (range 2 (degree self + 1))
    (fun l gradients =>
       for_each (combinations (keys x) l)
         (accumulate_combination v x (n_factors (base self)) l)
         gradients)
    no_gradients.

(** One call of the latent optimizer, as a mock optimizer would record
    it: the key, the order and the gradient dict [g] (its values for
    [f] in [range(n_factors)]). *)
Definition call : Type := (Key * nat * list R)%type.

Definition set_latent_vector (T : latent_table) (j : Key) (l : nat)
           (w : nat -> R) : latent_table :=
  fun j' l' f' =>
    if Key_eq_dec j' j then
      if Nat.eq_dec l' l then w f' else T j' l' f'
    else T j' l' f'.

(** The penalised gradient dict of lines 108-111. *)
Definition penalised (nf : Z) (g_loss l1 l2 : R)
           (gradients : gradient_table) (v : latent_table)
           (j : Key) (l : nat) : list R :=
  map (fun f =>
         g_loss * gradients j l f + l1 * sign (v j l f)
         + 2 * l2 * v j l f)
      (range 0 nf).

(** Lines 106-112 for one key and one order.  [v] is the same object as
    [self.latents], so every read goes to the current table. *)
Definition update_one (nf : Z) (g_loss l1 l2 : R)
           (gradients : gradient_table) (j : Key)
           (s : latent_table * Opt * list call) (l : nat)
  : latent_table * Opt * list call :=
  let '(v, opt, calls) := s in
  let g := penalised nf g_loss l1 l2 gradients v j l in
  let '(opt', w') := update_after_pred opt (v j l) g in
  (set_latent_vector v j l w', opt', calls ++ [(j, l, g)]).

(** Lines 104-112. *)
Definition apply_updates (nf : Z) (orders : list nat) (g_loss l1 l2 : R)
           (gradients : gradient_table) (ks : list Key)
           (s : latent_table * Opt * list call)
  : latent_table * Opt * list call :=
  fold_left
    (fun s j => fold_left (update_one nf g_loss l1 l2 gradients j) orders s)
    ks s.

Definition _update_latents (self : t) (x : dict Key) (g_loss : R)
  : result (t * list call) :=
  let b := base self in
  let l1 := l1_latent b in
  let l2 := l2_latent b in
  gradients <- accumulate_gradients self x ;;
  let '(v', opt', calls) :=
    apply_updates (n_factors b) (range 2 (degree self + 1)) g_loss l1 l2
                  gradients (keys x)
                  (latents b, latent_optimizer b, []) in
  Ok ({| base := {| n_factors := n_factors b;
                    l1_weight := l1_weight b;
                    l2_weight := l2_weight b;
                    l1_latent := l1;
                    l2_latent := l2;
                    weights := weights b;
                    latents := v';
                    latent_optimizer := opt' |};
         degree := degree self |}, calls).

End Model.

Arguments n_factors {Key Opt} _.
Arguments l1_weight {Key Opt} _.
Arguments l2_weight {Key Opt} _.
Arguments l1_latent {Key Opt} _.
Arguments l2_latent {Key Opt} _.
Arguments weights {Key Opt} _ _.
Arguments latents {Key Opt} _ _ _ _.
Arguments latent_optimizer {Key Opt} _.
Arguments Build_BaseFM {Key Opt}.
Arguments base {Key Opt} _.
Arguments degree {Key Opt} _.
Arguments Build_t {Key Opt}.
Arguments __init__ {Key Opt Args} base_init degree args.
Arguments _calculate_interaction {Key} Key_eq_dec {Opt} self x l combination.
Arguments _calculate_interactions {Key} Key_eq_dec {Opt} self x.
Arguments _calculate_weights_gradients {Key Opt} sign self x g_loss.
Arguments no_gradients {Key} _ _ _.
Arguments table_set {Key} Key_eq_dec T j l f a _ _ _.
Arguments accumulate_combination {Key} Key_eq_dec v x nf l combination gradients.
Arguments accumulate_gradients {Key} Key_eq_dec {Opt} self x.
Arguments set_latent_vector {Key} Key_eq_dec T j l w _ _ _.
Arguments penalised {Key} sign nf g_loss l1 l2 gradients v j l.
Arguments update_one {Key} Key_eq_dec {Opt} update_after_pred sign nf g_loss
  l1 l2 gradients j s l.
Arguments apply_updates {Key} Key_eq_dec {Opt} update_after_pred sign nf orders
  g_loss l1 l2 gradients ks s.
Arguments _update_latents {Key} Key_eq_dec {Opt} update_after_pred sign self x
  g_loss.
End HOFM.

(** ** creme/ensemble/hedging.py *)

Module HedgeRegressor.
Section Model.
(** Instances [x]; labels are floats. *)
Variable X : Type.

(** The member contract of [base.Regressor]: [predict_one(x)] and
    [fit_one(x, y)], the latter returning the trained member. *)
Variable Regressor : Type.
Variable member_predict_one : Regressor -> X -> R.
Variable member_fit_one : Regressor -> X -> R -> Regressor.

(** [optim.losses.Squared()], the default loss, called as
    [loss(y_true, y_pred)]. *)
Variable Squared : R -> R -> R.

(** Modelled from the spec: [base.Ensemble], the base class outside this
    file, is the ordered sequence of members given at construction;
    iterating over [self] and [len(self)] go to that sequence. *)
Record t : Type := {
  models : list Regressor;
  loss : R -> R -> R;
  learning_rate : R;
  weights : list R
}.

(** Lines 84-86, the attributes set after the call of line 83, for a
    base class that keeps the members as given;
    [HedgeBase.init_with_base] has the call. *)
Definition __init__ (regressors : list Regressor)
           (loss : option (R -> R -> R)) (learning_rate : R) : t :=
  {| models := regressors;
     loss := match loss with None => Squared | Some f => f end;
     learning_rate := learning_rate;
     weights := repeat 1 (length regressors) |}.

Definition regressors (self : t) : list Regressor := models self.

(** The variables of the loop of [fit_predict_one]; [fitted] collects the
    members already trained on the sample. *)
Record loop_state : Type := {
  y_pred_mean : R;
  total : R;
  cur_weights : list R;
  fitted : list Regressor
}.

(** Lines 98-104, from index [i] on, over the members not yet visited:
    every listed member an object of its own, and [math.exp] within
    range.  [HedgeShared] has the members as shared objects and the
    overflow of [math.exp]. *)
Fixpoint member_loop (self : t) (x : X) (y : R) (i : nat)
         (members : list Regressor) (s : loop_state) : result loop_state :=
  match members with
  | [] => Ok s
  | regressor :: rest =>
      let y_pred := member_predict_one regressor x in
      w <- list_get (cur_weights s) i ;;
      d <- truediv (w * (y_pred - y_pred_mean s))
                   (INR (length (models self))) ;;
      let l := loss self y y_pred in
      let w' := w * exp (- learning_rate self * l) in
      member_loop self x y (S i) rest
        {| y_pred_mean := y_pred_mean s + d;
           total := total s + w';
           cur_weights := list_set (cur_weights s) i w';
           fitted := fitted s ++ [member_fit_one regressor x y] |}
  end.

Definition run_loop (self : t) (x : X) (y : R) : result loop_state :=
  member_loop self x y 0 (models self)
    {| y_pred_mean := 0; total := 0;
       cur_weights := weights self; fitted := [] |}.

(** Lines 107-109. *)
Definition normalize (total : R) (ws : list R) : list R :=
  if truthy total then map (fun w => w / total) ws else ws.

Definition fit_predict_one (self : t) (x : X) (y : R) : result (R * t) :=
  s <- run_loop self x y ;;
  Ok (y_pred_mean s,
      {| models := fitted s;
         loss := loss self;
         learning_rate := learning_rate self;
         weights := normalize (total s) (cur_weights s) |}).

Definition fit_one (self : t) (x : X) (y : R) : result t :=
  r <- fit_predict_one self x y ;;
  Ok (snd r).

Definition predict_one (self : t) (x : X) : result R :=
  sum (map (fun '(model, weight) => Ok (member_predict_one model x * weight))
           (combine (models self) (weights self))).

(** A stream of samples fed to [fit_one], one after the other. *)
Fixpoint fit_many (self : t) (samples : list (X * R)) : result t :=
  match samples with
  | [] => Ok self
  | (x, y) :: rest => self' <- fit_one self x y ;; fit_many self' rest
  end.

End Model.

Arguments models {Regressor} _.
Arguments loss {Regressor} _ _ _.
Arguments learning_rate {Regressor} _.
Arguments weights {Regressor} _.
Arguments Build_t {Regressor}.
Arguments __init__ {Regressor} Squared regressors loss learning_rate.
Arguments y_pred_mean {Regressor} _.
Arguments total {Regressor} _.
Arguments cur_weights {Regressor} _.
Arguments fitted {Regressor} _.
Arguments Build_loop_state {Regressor}.
Arguments member_loop {X Regressor} member_predict_one member_fit_one self x y
  i members s.
Arguments run_loop {X Regressor} member_predict_one member_fit_one self x y.
Arguments fit_predict_one {X Regressor} member_predict_one member_fit_one self
  x y.
Arguments fit_one {X Regressor} member_predict_one member_fit_one self x y.
Arguments predict_one {X Regressor} member_predict_one self x.
Arguments fit_many {X Regressor} member_predict_one member_fit_one self samples.
End HedgeRegressor.

(** ** The quantities the specification names *)

Module Spec.

Definition Rsum (l : list R) : R := fold_right Rplus 0 l.

Definition Rprod (l : list R) : R := fold_right Rmult 1 l.

(** Every sub-collection of the keys, each key taken at most once. *)
Fixpoint sublists {A : Type} (l : list A) : list (list A) :=
  match l with
  | [] => [[]]
  | a :: rest => map (cons a) (sublists rest) ++ sublists rest
  end.

(** The combinations of [l] distinct keys. *)
Definition subsets_of_size {A : Type} (l : nat) (ks : list A)
  : list (list A) :=
  filter (fun C => Nat.eqb (length C) l) (sublists ks).

Section Interactions.
Variable Key : Type.
Variable Key_eq_dec : forall a b : Key, {a = b} + {a <> b}.

(** The value of a feature; an absent key counts as zero. *)
Definition value (x : dict Key) (j : Key) : R :=
  match getitem Key_eq_dec x j with
  | Ok a => a
  | Raise _ => 0
  end.

(** One combination: the product of the feature values times the
    factor-wise dot product of the order-[l] latent vectors. *)
Definition combination_term (v : Key -> nat -> nat -> R) (nf : Z)
           (x : dict Key) (l : nat) (C : list Key) : R :=
  Rprod (map (value x) C)
  * Rsum (map (fun f => Rprod (map (fun j => v j l f) C)) (range 0 nf)).

(** The contribution of order [l]. *)
Definition order_term (v : Key -> nat -> nat -> R) (nf : Z)
           (x : dict Key) (l : nat) : R :=
  Rsum (map (combination_term v nf x l) (subsets_of_size l (keys x))).

(** The interaction part of the raw score, orders 2 to [degree]. *)
Definition interaction_sum (v : Key -> nat -> nat -> R) (nf degree : Z)
           (x : dict Key) : R :=
  Rsum (map (order_term v nf x) (range 2 (degree + 1))).

(** The closed form of a pairwise factorization machine. *)
Definition pairwise_closed_form (v : Key -> nat -> nat -> R) (nf : Z)
           (x : dict Key) : R :=
  Rsum (map (fun f =>
               ((Rsum (map (fun j => v j 2%nat f * value x j) (keys x))) ^ 2
                - Rsum (map (fun j => (v j 2%nat f) ^ 2 * (value x j) ^ 2)
                            (keys x))) / 2)
            (range 0 nf)).

End Interactions.
Arguments value {Key} Key_eq_dec x j.
Arguments combination_term {Key} Key_eq_dec v nf x l C.
Arguments order_term {Key} Key_eq_dec v nf x l.
Arguments interaction_sum {Key} Key_eq_dec v nf degree x.
Arguments pairwise_closed_form {Key} Key_eq_dec v nf x.

(** The calls the latent optimizer would receive if every gradient dict
    were computed from the gradients [gradients] and the latent table
    [v0] alone, the keys in the order of [x.keys()], the orders ascending. *)
Definition snapshot_calls {Key : Type} (sign : R -> R) (nf : Z)
           (orders : list nat) (g_loss l1 l2 : R)
           (gradients : HOFM.gradient_table Key) (v0 : HOFM.latent_table Key)
           (ks : list Key) : list (HOFM.call Key) :=
  flat_map (fun j =>
              map (fun l =>
                     (j, l, HOFM.penalised sign nf g_loss l1 l2 gradients v0 j l))
                  orders)
           ks.

(** The plain weighted average of the predictions: the weighted sum over
    the sum of the weights. *)
Definition weighted_average (ws ys : list R) : R :=
  Rsum (map (fun '(w, y) => w * y) (combine ws ys)) / Rsum ws.

Definition positive (ws : list R) : Prop := Forall (fun w => 0 < w) ws.

Section Hedge.
Variable X : Type.
Variable Regressor : Type.
Variable member_predict_one : Regressor -> X -> R.
Variable member_fit_one : Regressor -> X -> R -> Regressor.

(** The factor [exp(-learning_rate * loss_i)] of member [r]. *)
Definition update_factor (self : HedgeRegressor.t Regressor) (x : X) (y : R)
           (r : Regressor) : R :=
  exp (- HedgeRegressor.learning_rate self
       * HedgeRegressor.loss self y (member_predict_one r x)).

(** The weights after the multiplicative update, before normalisation. *)
Definition post_update_weights (self : HedgeRegressor.t Regressor) (x : X)
           (y : R) : list R :=
  map (fun '(w, r) => w * update_factor self x y r)
      (combine (HedgeRegressor.weights self) (HedgeRegressor.models self)).

(** The incremental pass over (weight, prediction) pairs, for [n] members. *)
Definition mean_pass (n : R) (pairs : list (R * R)) (start : R) : R :=
  fold_left (fun m '(w, y_pred) => m + w * (y_pred - m) / n) pairs start.

(** The state [fit_one] leaves behind. *)
Definition after_fit (self : HedgeRegressor.t Regressor) (x : X) (y : R)
  : HedgeRegressor.t Regressor :=
  {| HedgeRegressor.models :=
       map (fun r => member_fit_one r x y) (HedgeRegressor.models self);
     HedgeRegressor.loss := HedgeRegressor.loss self;
     HedgeRegressor.learning_rate := HedgeRegressor.learning_rate self;
     HedgeRegressor.weights :=
       HedgeRegressor.normalize
         (Rsum (post_update_weights self x y))
         (post_update_weights self x y) |}.
End Hedge.
Arguments update_factor {X Regressor} member_predict_one self x y r.
Arguments post_update_weights {X Regressor} member_predict_one self x y.
Arguments after_fit {X Regressor} member_predict_one member_fit_one self x y.

End Spec.

(** ** Concrete models and instances *)

Module Examples.
Local Open Scope string_scope.

(** [utils.math.sign]. *)
Definition sign (r : R) : R :=
  if Rlt_dec r 0 then -1 else if Rlt_dec 0 r then 1 else 0.

(** A stateless optimizer: one plain gradient step of rate 1. *)
Definition sgd_step (opt : unit) (w : nat -> R) (g : list R)
  : unit * (nat -> R) :=
  (tt, fun f => w f - nth f g 0).

Definition attributes (v : string -> nat -> nat -> R) (nf : Z)
  : HOFM.BaseFM string unit :=
  {| HOFM.n_factors := nf;
     HOFM.l1_weight := 0;
     HOFM.l2_weight := 0;
     HOFM.l1_latent := 0;
     HOFM.l2_latent := 0;
     HOFM.weights := fun _ => 0;
     HOFM.latents := v;
     HOFM.latent_optimizer := tt |}.

Definition machine (v : string -> nat -> nat -> R) (degree nf : Z)
  : HOFM.t string unit :=
  {| HOFM.base := attributes v nf; HOFM.degree := degree |}.

(** Modelled from the spec: [BaseFM.__init__], outside this file, keeps
    the configuration it is given. *)
Definition stored_attributes (args : HOFM.BaseFM string unit)
  : result (HOFM.BaseFM string unit) := Ok args.

Definition all_ones : string -> nat -> nat -> R := fun _ _ _ => 1.

Definition user_zero : string -> nat -> nat -> R :=
  fun j _ _ => if String.eqb j "user" then 0 else 1.

Definition x_one : dict string := [("user", 1)].

Definition x_two : dict string := [("user", 1); ("item", 1)].

Definition x_three : dict string := [("user", 1); ("item", 2); ("time", 3)].

(** Members that always predict the same value and learn nothing. *)
Definition constant_predict (r : R) (x : unit) : R := r.

Definition constant_fit (r : R) (x : unit) (y : R) : R := r.

Definition squared (y_true y_pred : R) : R := (y_pred - y_true) ^ 2.

Definition hedge (members : list R) : HedgeRegressor.t R :=
  HedgeRegressor.__init__ squared members None (1 / 2).

End Examples.

(** ** Further quantities *)

Module HedgeSpec.
Import Spec.
Section Hedge.
Variable X : Type.
Variable Regressor : Type.
Variable member_fit_one : Regressor -> X -> R -> Regressor.

(** A member trained on a stream of samples, one after the other. *)
Definition trained (samples : list (X * R)) (r : Regressor) : Regressor :=
  fold_left (fun r '(x, y) => member_fit_one r x y) samples r.

(** The ensemble with its [weights] attribute assigned. *)
Definition with_weights (self : HedgeRegressor.t Regressor) (ws : list R)
  : HedgeRegressor.t Regressor :=
  {| HedgeRegressor.models := HedgeRegressor.models self;
     HedgeRegressor.loss := HedgeRegressor.loss self;
     HedgeRegressor.learning_rate := HedgeRegressor.learning_rate self;
     HedgeRegressor.weights := ws |}.
End Hedge.
Arguments trained {X Regressor} member_fit_one samples r.
Arguments with_weights {Regressor} self ws.
End HedgeSpec.

Module GradientSpec.
Import Spec.
Section Gradients.
Variable Key : Type.
Variable Key_eq_dec : forall a b : Key, {a = b} + {a <> b}.

(** What one combination adds to the gradient of [j]: for each time [j]
    occurs in it, the product of the feature values times the product of
    the latent components, divided by the component of [j]. *)
Definition combination_gradient (v : Key -> nat -> nat -> R) (x : dict Key)
           (l f : nat) (j : Key) (C : list Key) : R :=
  Rsum (map (fun k =>
               if Key_eq_dec k j then
                 Rprod (map (value Key_eq_dec x) C)
                 * Rprod (map (fun i => v i l f) C) / v k l f
               else 0)
            C).

(** The accumulated gradient of [j] at order [l] and factor [f]. *)
Definition gradient_sum (v : Key -> nat -> nat -> R) (x : dict Key)
           (l f : nat) (j : Key) : R :=
  Rsum (map (combination_gradient v x l f j) (combinations (keys x) l)).
End Gradients.
Arguments combination_gradient {Key} Key_eq_dec v x l f j C.
Arguments gradient_sum {Key} Key_eq_dec v x l f j.
End GradientSpec.

Module MoreExamples.
Import Examples.
Local Open Scope string_scope.

Definition x_two_swapped : dict string := [("item", 1); ("user", 1)].

(** An ensemble of constant members with its weights assigned. *)
Definition hedge_with (members ws : list R) : HedgeRegressor.t R :=
  HedgeSpec.with_weights (hedge members) ws.

End MoreExamples.

(** ** Lines 92-101 of creme/facto/hofm.py on numpy scalars *)

Module Numpy.

(** A numpy [float64], read without rounding: a real number, an infinity
    or nan. *)
Inductive float64 : Type :=
| Finite (r : R)
| Inf (positive : bool)
| NaN.

(** [a + b] on numpy scalars. *)
Definition add (a b : float64) : float64 :=
  match a, b with
  | NaN, _ => NaN
  | _, NaN => NaN
  | Finite x, Finite y => Finite (x + y)
  | Inf s, Finite _ => Inf s
  | Finite _, Inf s => Inf s
  | Inf s, Inf s' => if Bool.eqb s s' then Inf s else NaN
  end.

(** [a / b] for two finite numpy scalars: a zero divisor (read as +0.0)
    gives nan or an infinity, with a warning and no exception. *)
Definition divide (a b : R) : float64 :=
  if Req_dec_T b 0 then
    if Req_dec_T a 0 then NaN
    else Inf (if Rlt_dec 0 a then true else false)
  else Finite (a / b).

Section Model.
Variable Key : Type.
Variable Key_eq_dec : forall a b : Key, {a = b} + {a <> b}.
Variable Opt : Type.

(** [gradients]: nested defaultdicts ending in [defaultdict(float)]. *)
Definition gradient_table : Type := Key -> nat -> nat -> float64.

Definition no_gradients : gradient_table := fun _ _ _ => Finite 0.

Definition table_set (T : gradient_table) (j : Key) (l f : nat)
           (a : float64) : gradient_table :=
  fun j' l' f' =>
    if Key_eq_dec j' j then
      if Nat.eq_dec l' l then
        if Nat.eq_dec f' f then a else T j' l' f'
      else T j' l' f'
    else T j' l' f'.

(** Lines 95-101, the latent components being numpy scalars (the vectors
    the latent initializer returns): line 101 never raises. *)
Definition accumulate_combination (v : HOFM.latent_table Key) (x : dict Key)
           (nf : Z) (l : nat) (combination : list Key)
           (gradients : gradient_table) : result gradient_table :=
  feature_product <- reduce_mul (map (getitem Key_eq_dec x) combination) ;;
  for_each (range 0 nf)
    (fun f gradients =>
       latent_product <-
         reduce_mul (map (fun j => Ok (v j l f)) combination) ;;
       for_each combination
         (fun j gradients =>
            Ok (table_set gradients j l f
                  (add (gradients j l f)
                       (divide (feature_product * latent_product)
                               (v j l f)))))
         gradients)
    gradients.

(** Lines 92-101. *)
Definition accumulate_gradients (self : HOFM.t Key Opt) (x : dict Key)
  : result gradient_table :=
  let v := HOFM.latents (HOFM.base self) in
  for_each (range 2 (HOFM.degree self + 1))
    (fun l gradients =>
       for_each (combinations (keys x) l)
         (accumulate_combination v x (HOFM.n_factors (HOFM.base self)) l)
         gradients)
    no_gradients.

(** [a * b], [a] a Python float and [b] a numpy scalar. *)
Definition scale (a : R) (b : float64) : float64 :=
  match b with
  | Finite y => Finite (a * y)
  | Inf s =>
      if Req_dec_T a 0 then NaN else Inf (if Rlt_dec 0 a then s else negb s)
  | NaN => NaN
  end.

(** Line 108: the entry of the dict [g] for one factor, from the
    accumulated gradient [g_jlf] and the latent component [w]. *)
Definition latent_gradient (sign : R -> R) (g_loss l1 l2 : R)
           (g_jlf : float64) (w : R) : float64 :=
  add (add (scale g_loss g_jlf) (Finite (l1 * sign w)))
      (Finite (2 * l2 * w)).

(** The entry of [j], [l], [f] is nan. *)
Definition poisoned (j : Key) (l f : nat) (G : gradient_table) : Prop :=
  G j l f = NaN.

(** [N] holds the gradients of [G], all of them finite. *)
Definition finite_copy (G : HOFM.gradient_table Key) (N : gradient_table)
  : Prop :=
  forall j l f, N j l f = Finite (G j l f).

End Model.
Arguments poisoned {Key} j l f G.
Arguments finite_copy {Key} G N.
Arguments no_gradients {Key} _ _ _.
Arguments table_set {Key} Key_eq_dec T j l f a _ _ _.
Arguments accumulate_combination {Key} Key_eq_dec v x nf l combination
  gradients.
Arguments accumulate_gradients {Key} Key_eq_dec {Opt} self x.

End Numpy.

(** ** The base class of the ensemble *)

Module HedgeBase.
Section Model.
Variable Regressor : Type.
Variable Squared : R -> R -> R.

(** Lines 82-86 with the call [super().__init__(regressors)] of line 83:
    the initialiser of [base.Ensemble], outside this file, receives the
    members and may raise; what it keeps is what iterating over [self]
    yields.  The weights are built from [len(regressors)]. *)
Definition init_with_base
           (ensemble_init : list Regressor -> result (list Regressor))
           (regressors : list Regressor) (loss : option (R -> R -> R))
           (learning_rate : R) : result (HedgeRegressor.t Regressor) :=
  members <- ensemble_init regressors ;;
  Ok {| HedgeRegressor.models := members;
        HedgeRegressor.loss :=
          match loss with None => Squared | Some f => f end;
        HedgeRegressor.learning_rate := learning_rate;
        HedgeRegressor.weights := repeat 1 (length regressors) |}.
End Model.
Arguments init_with_base {Regressor} Squared ensemble_init regressors loss
  learning_rate.
End HedgeBase.

(** ** [self.latents] filled on first access (lines 44-52, 54-68) *)

Module LazyLatents.
Section Model.
Variable Key : Type.
Variable Key_eq_dec : forall a b : Key, {a = b} + {a <> b}.

(** The latent initializer is an external collaborator with a state of
    its own (its random generator): [latent_initializer(shape=n_factors)]
    returns a fresh vector and advances the generator. *)
Variable Gen : Type.
Variable latent_initializer : Gen -> Z -> (nat -> R) * Gen.

(** [self.latents]: the entry of [j] and [l] is [self.latents[j][l]],
    [None] as long as it has not been created. *)
Definition table : Type := Key -> nat -> option (nat -> R).

Definition store : Type := (table * Gen)%type.

Definition table_add (T : table) (j : Key) (l : nat) (w : nat -> R) : table :=
  fun j' l' =>
    if Key_eq_dec j' j then
      if Nat.eq_dec l' l then Some w else T j' l'
    else T j' l'.

(** [self.latents[j][l]]: a missing entry is created by the initializer
    and kept (lines 44-52). *)
Definition lookup (nf : Z) (j : Key) (l : nat) (st : store)
  : (nat -> R) * store :=
  match fst st j l with
  | Some w => (w, st)
  | None =>
      let '(w, g) := latent_initializer (snd st) nf in
      (w, (table_add (fst st) j l w, g))
  end.

(** [functools.reduce(lambda x, y: x * y,
    (self.latents[j][l][f] for j in combination))] of line 65. *)
Fixpoint reduce_latents_from (acc : R) (nf : Z) (l f : nat)
         (combination : list Key) (st : store) : R * store :=
  match combination with
  | [] => (acc, st)
  | j :: rest =>
      let '(w, st') := lookup nf j l st in
      reduce_latents_from (acc * w f) nf l f rest st'
  end.

Definition reduce_latents (nf : Z) (l f : nat) (combination : list Key)
           (st : store) : result (R * store) :=
  match combination with
  | [] => Raise TypeError
  | j :: rest =>
      let '(w, st') := lookup nf j l st in
      Ok (reduce_latents_from (w f) nf l f rest st')
  end.

(** The [sum] of lines 64-67 over [f in range(self.n_factors)]. *)
Fixpoint sum_latents_from (acc : R) (nf : Z) (l : nat)
         (combination : list Key) (fs : list nat) (st : store)
  : result (R * store) :=
  match fs with
  | [] => Ok (acc, st)
  | f :: rest =>
      bind (reduce_latents nf l f combination st)
           (fun '(p, st') =>
              sum_latents_from (acc + p) nf l combination rest st')
  end.

(** Lines 62-68. *)
Definition _calculate_interaction (nf : Z) (x : dict Key) (l : nat)
           (combination : list Key) (st : store) : result (R * store) :=
  feature_product <- reduce_mul (map (getitem Key_eq_dec x) combination) ;;
  bind (sum_latents_from 0 nf l combination (range 0 nf) st)
       (fun '(latent_scalar_product, st') =>
          Ok (feature_product * latent_scalar_product, st')).

(** The [sum] of lines 56-60 over the orders and combinations. *)
Fixpoint sum_interactions_from (acc : R) (nf : Z) (x : dict Key)
         (items : list (nat * list Key)) (st : store) : result (R * store) :=
  match items with
  | [] => Ok (acc, st)
  | (l, combination) :: rest =>
      bind (_calculate_interaction nf x l combination st)
           (fun '(a, st') => sum_interactions_from (acc + a) nf x rest st')
  end.

(** Lines 54-60, for a machine with [n_factors = nf] and the given
    [degree]. *)
Definition _calculate_interactions (nf degree : Z) (x : dict Key)
           (st : store) : result (R * store) :=
  sum_interactions_from 0 nf x
    (flat_map (fun l => map (pair l) (combinations (keys x) l))
              (range 2 (degree + 1)))
    st.

(** Every latent vector that [x] needs at the orders 2 to [degree] has
    been created. *)
Definition materialised (T : table) (degree : Z) (x : dict Key) : Prop :=
  forall j l,
    In j (keys x) -> In l (range 2 (degree + 1)) -> T j l <> None.

(** The table read as a total one, for the entries that exist. *)
Definition stored (T : table) : Key -> nat -> nat -> R :=
  fun j l f =>
    match T j l with
    | Some w => w f
    | None => 0
    end.

End Model.
Arguments table_add {Key} Key_eq_dec T j l w _ _.
Arguments lookup {Key} Key_eq_dec {Gen} latent_initializer nf j l st.
Arguments reduce_latents_from {Key} Key_eq_dec {Gen} latent_initializer acc nf
  l f combination st.
Arguments reduce_latents {Key} Key_eq_dec {Gen} latent_initializer nf l f
  combination st.
Arguments sum_latents_from {Key} Key_eq_dec {Gen} latent_initializer acc nf l
  combination fs st.
Arguments _calculate_interaction {Key} Key_eq_dec {Gen} latent_initializer nf
  x l combination st.
Arguments sum_interactions_from {Key} Key_eq_dec {Gen} latent_initializer acc
  nf x items st.
Arguments _calculate_interactions {Key} Key_eq_dec {Gen} latent_initializer nf
  degree x st.
Arguments materialised {Key} T degree x.
Arguments stored {Key} T _ _ _.
End LazyLatents.

(** ** creme/ensemble/hedging.py with members as shared objects *)

Module HedgeShared.
Section Model.
Variable X : Type.

(** What a member object holds.  [predict_one] reads it and [fit_one]
    replaces it in place: a member listed twice is one object. *)
Variable State : Type.
Variable member_predict_one : State -> X -> R.
Variable member_fit_one : State -> X -> R -> State.

(** [math.exp]: [OverflowError] on the arguments whose exponential is
    beyond the largest float, the ones [exp_overflows] tells; a result
    too small for a float underflows to 0 without an error. *)
Variable exp_overflows : R -> bool.

Definition math_exp (a : R) : result R :=
  if exp_overflows a then Raise OverflowError else Ok (exp a).

(** [math.exp] of a number that is not positive does not overflow. *)
Definition no_overflow_below_zero : Prop :=
  forall a, a <= 0 -> exp_overflows a = false.

(** The identity of a member object, and the objects by identity. *)
Definition ref : Type := nat.

Definition heap : Type := ref -> State.

Definition heap_set (h : heap) (r : ref) (s : State) : heap :=
  fun r' => if Nat.eq_dec r' r then s else h r'.

Record t : Type := {
  models : list ref;
  loss : R -> R -> R;
  learning_rate : R;
  weights : list R
}.

Record loop_state : Type := {
  y_pred_mean : R;
  total : R;
  cur_weights : list R;
  objects : heap
}.

(** The loss of the ensemble is never negative. *)
Definition loss_is_nonnegative (self : t) : Prop :=
  forall y_true y_pred, 0 <= loss self y_true y_pred.

(** Lines 98-104, from index [i] on, over the members not yet visited. *)
Fixpoint member_loop (self : t) (x : X) (y : R) (i : nat)
         (members : list ref) (s : loop_state) : result loop_state :=
  match members with
  | [] => Ok s
  | regressor :: rest =>
      let y_pred := member_predict_one (objects s regressor) x in
      w <- list_get (cur_weights s) i ;;
      d <- truediv (w * (y_pred - y_pred_mean s))
                   (INR (length (models self))) ;;
      let l := loss self y y_pred in
      e <- math_exp (- learning_rate self * l) ;;
      let w' := w * e in
      member_loop self x y (S i) rest
        {| y_pred_mean := y_pred_mean s + d;
           total := total s + w';
           cur_weights := list_set (cur_weights s) i w';
           objects :=
             heap_set (objects s) regressor
               (member_fit_one (objects s regressor) x y) |}
  end.

Definition run_loop (self : t) (h : heap) (x : X) (y : R)
  : result loop_state :=
  member_loop self x y 0 (models self)
    {| y_pred_mean := 0; total := 0;
       cur_weights := weights self; objects := h |}.

(** Lines 92-111: the prediction, the ensemble and the member objects. *)
Definition fit_predict_one (self : t) (h : heap) (x : X) (y : R)
  : result (R * (t * heap)) :=
  s <- run_loop self h x y ;;
  Ok (y_pred_mean s,
      ({| models := models self;
          loss := loss self;
          learning_rate := learning_rate self;
          weights :=
            HedgeRegressor.normalize (total s) (cur_weights s) |},
       objects s)).

Definition fit_one (self : t) (h : heap) (x : X) (y : R)
  : result (t * heap) :=
  r <- fit_predict_one self h x y ;;
  Ok (snd r).

(** A stream of samples fed to [fit_one], one after the other. *)
Fixpoint fit_many (self : t) (h : heap) (samples : list (X * R))
  : result (t * heap) :=
  match samples with
  | [] => Ok (self, h)
  | (x, y) :: rest =>
      r <- fit_one self h x y ;;
      fit_many (fst r) (snd r) rest
  end.

End Model.
Arguments heap_set {State} h r s _.
Arguments y_pred_mean {State} _.
Arguments total {State} _.
Arguments cur_weights {State} _.
Arguments objects {State} _ _.
Arguments Build_loop_state {State}.
Arguments member_loop {X State} member_predict_one member_fit_one exp_overflows
  self x y i members s.
Arguments run_loop {X State} member_predict_one member_fit_one exp_overflows self h
  x y.
Arguments fit_predict_one {X State} member_predict_one member_fit_one exp_overflows
  self h x y.
Arguments fit_one {X State} member_predict_one member_fit_one exp_overflows self h
  x y.
Arguments fit_many {X State} member_predict_one member_fit_one exp_overflows self h
  samples.
End HedgeShared.

(** ** The calls of the latent optimizer *)

Module UpdateSpec.

(** The key and the order of a call of the optimizer. *)
Definition call_pair {Key : Type} (c : HOFM.call Key) : Key * nat :=
  (fst (fst c), snd (fst c)).

End UpdateSpec.

Module FurtherExamples.
Import Examples.
Local Open Scope string_scope.

(** A base class that keeps the members it is given. *)
Definition kept_members (regs : list R) : result (list R) := Ok regs.

(** [math.exp] overflows above 709. *)
Definition above_709 (a : R) : bool :=
  if Rlt_dec 709 a then true else false.

(** Two distinct member objects, each holding the value it predicts. *)
Definition two_objects : HedgeShared.t :=
  {| HedgeShared.models := [0%nat; 1%nat];
     HedgeShared.loss := squared;
     HedgeShared.learning_rate := 1 / 2;
     HedgeShared.weights := [1; 1] |}.

Definition object_values : HedgeShared.heap R := fun r => INR r.

(** A member that remembers the last label it was trained on. *)
Definition recall_fit (s : R) (x : unit) (y : R) : R := y.

(** A latent table in which every vector exists, and an initializer that
    counts its calls. *)
Definition full_table : LazyLatents.table string := fun _ _ => Some (fun _ => 1).

Definition counting_initializer (g : nat) (shape : Z) : (nat -> R) * nat :=
  (fun _ => INR g, S g).

End FurtherExamples.

(** * Properties *)

Module PyFacts.
Import Spec.

Lemma Rsum_app (a b : list R) : Rsum (a ++ b) = Rsum a + Rsum b.
Proof. induction a as [|h a IH]; simpl; [ring | rewrite IH; ring]. Qed.

Lemma Rprod_app (a b : list R) : Rprod (a ++ b) = Rprod a * Rprod b.
Proof. induction a as [|h a IH]; simpl; [ring | rewrite IH; ring]. Qed.

Lemma Rsum_flat_map {A : Type} (f : A -> list R) (l : list A) :
  Rsum (flat_map f l) = Rsum (map (fun a => Rsum (f a)) l).
Proof.
  induction l as [|a l IH]; simpl; [reflexivity|].
  now rewrite Rsum_app, IH.
Qed.

Lemma Rsum_map_ext_in {A : Type} (f g : A -> R) (l : list A) :
  (forall a, In a l -> f a = g a) -> Rsum (map f l) = Rsum (map g l).
Proof. intros H. f_equal. now apply map_ext_in. Qed.

Lemma Rsum_zero {A : Type} (f : A -> R) (l : list A) :
  (forall a, In a l -> f a = 0) -> Rsum (map f l) = 0.
Proof.
  induction l as [|a l IH]; simpl; intros H; [reflexivity|].
  rewrite (H a) by now left. rewrite IH; [ring|]. intros; apply H; now right.
Qed.

Lemma sum_from_Ok (vs : list R) : forall acc,
  sum_from acc (map Ok vs) = Ok (acc + Rsum vs).
Proof.
  induction vs as [|a vs IH]; intros acc; simpl.
  - f_equal; ring.
  - rewrite IH. f_equal; ring.
Qed.

Lemma sum_Ok (vs : list R) : sum (map Ok vs) = Ok (Rsum vs).
Proof. unfold sum. rewrite sum_from_Ok. f_equal; ring. Qed.

Lemma reduce_from_Ok (vs : list R) : forall acc,
  reduce_from acc (map Ok vs) = Ok (acc * Rprod vs).
Proof.
  induction vs as [|a vs IH]; intros acc; simpl.
  - f_equal; ring.
  - rewrite IH. f_equal; ring.
Qed.

Lemma reduce_mul_Ok (vs : list R) :
  vs <> [] -> reduce_mul (map Ok vs) = Ok (Rprod vs).
Proof.
  destruct vs as [|a vs]; [congruence|]. intros _. simpl.
  now rewrite reduce_from_Ok.
Qed.

(** What [itertools.combinations] yields. *)
Lemma combinations_0 {A : Type} (pool : list A) : combinations pool 0 = [[]].
Proof. now destruct pool. Qed.

Lemma filter_length_cons {A : Type} (a : A) (r : nat) (Cs : list (list A)) :
  filter (fun C => Nat.eqb (length C) (S r)) (map (cons a) Cs)
  = map (cons a) (filter (fun C => Nat.eqb (length C) r) Cs).
Proof.
  induction Cs as [|C Cs IH]; simpl; [reflexivity|].
  destruct (Nat.eqb (length C) r); simpl; now rewrite IH.
Qed.

Lemma filter_length_cons_0 {A : Type} (a : A) (Cs : list (list A)) :
  filter (fun C => Nat.eqb (length C) 0) (map (cons a) Cs) = [].
Proof. induction Cs as [|C Cs IH]; simpl; auto. Qed.

Lemma combinations_subsets {A : Type} (pool : list A) : forall r,
  combinations pool r = subsets_of_size r pool.
Proof.
  unfold subsets_of_size.
  induction pool as [|a pool IH]; intros r.
  - destruct r; reflexivity.
  - simpl sublists. rewrite filter_app. destruct r as [|r]; simpl combinations.
    + now rewrite <- IH, combinations_0, filter_length_cons_0.
    + now rewrite filter_length_cons, <- !IH.
Qed.

Lemma combinations_length {A : Type} (pool : list A) : forall r C,
  In C (combinations pool r) -> length C = r.
Proof.
  induction pool as [|a pool IH]; intros r C H.
  - destruct r; simpl in H; [destruct H as [<-|[]]; reflexivity | destruct H].
  - destruct r as [|r]; simpl in H.
    + destruct H as [<-|[]]; reflexivity.
    + apply in_app_or in H as [H|H].
      * apply in_map_iff in H as (C' & <- & H). simpl. f_equal. eauto.
      * eauto.
Qed.

Lemma combinations_incl {A : Type} (pool : list A) : forall r C,
  In C (combinations pool r) -> incl C pool.
Proof.
  induction pool as [|a pool IH]; intros r C H.
  - destruct r; simpl in H; [destruct H as [<-|[]] | destruct H].
    apply incl_refl.
  - destruct r as [|r]; simpl in H.
    + destruct H as [<-|[]]. apply incl_nil_l.
    + apply in_app_or in H as [H|H].
      * apply in_map_iff in H as (C' & <- & H).
        apply incl_cons; [now left|]. apply incl_tl. eauto.
      * apply incl_tl. eauto.
Qed.

Lemma combinations_short {A : Type} (pool : list A) : forall r,
  (length pool < r)%nat -> combinations pool r = [].
Proof.
  induction pool as [|a pool IH]; intros r H.
  - destruct r; [simpl in H; lia | reflexivity].
  - destruct r as [|r]; [lia|]. simpl. simpl in H.
    rewrite (IH r) by lia. rewrite (IH (S r)) by lia. reflexivity.
Qed.

(** Every key of a pool with at least [r >= 1] elements lies in one of
    its combinations of size [r]. *)
Lemma combinations_inhabited {A : Type} (pool : list A) : forall r,
  (r <= length pool)%nat -> exists C, In C (combinations pool r).
Proof.
  induction pool as [|c pool IH]; intros r Hr.
  - simpl in Hr. assert (r = 0)%nat as -> by lia. exists []. now left.
  - destruct r as [|r]; [exists []; now left|].
    simpl in Hr. destruct (IH r) as [C HC]; [lia|].
    exists (c :: C). simpl. apply in_or_app. left. now apply in_map.
Qed.

Lemma combinations_cover {A : Type} (pool : list A) : forall r a,
  In a pool -> (1 <= r <= length pool)%nat ->
  exists C, In C (combinations pool r) /\ In a C.
Proof.
  induction pool as [|b pool IH]; intros r a Hin Hr; [destruct Hin|].
  destruct r as [|r]; [lia|]. simpl in Hr. simpl combinations.
  destruct Hin as [->|Hin].
  - destruct (combinations_inhabited pool r) as [C HC]; [lia|].
    exists (a :: C). split; [|now left].
    apply in_or_app. left. now apply in_map.
  - destruct r as [|r].
    + destruct (IH 1%nat a Hin) as (C & HC & HaC).
      { destruct pool; [destruct Hin | simpl; lia]. }
      exists C. split; [apply in_or_app; now right | assumption].
    + destruct (IH (S r) a Hin) as (C & HC & HaC); [lia|].
      exists (b :: C). split; [|now right].
      apply in_or_app. left. now apply in_map.
Qed.

End PyFacts.

Module LoopFacts.

Lemma truediv_zero (a : R) : truediv a 0 = Raise ZeroDivisionError.
Proof. unfold truediv. destruct (Req_dec_T 0 0); [reflexivity | congruence]. Qed.

Lemma truediv_nonzero (a b : R) : b <> 0 -> truediv a b = Ok (a / b).
Proof. unfold truediv. destruct (Req_dec_T b 0); [contradiction | reflexivity]. Qed.

Lemma truediv_only (a b : R) : only_zero_division (truediv a b).
Proof. unfold truediv. destruct (Req_dec_T b 0); simpl; auto. Qed.

Lemma bind_only {A B : Type} (m : result A) (k : A -> result B) :
  only_zero_division m -> (forall a, only_zero_division (k a)) ->
  only_zero_division (bind m k).
Proof. destruct m; simpl; auto. Qed.

Lemma for_each_only {A S : Type} (items : list A)
      (body : A -> S -> result S) :
  (forall a s, In a items -> only_zero_division (body a s)) ->
  forall s, only_zero_division (for_each items body s).
Proof.
  induction items as [|a items IH]; intros H s; simpl; [exact I|].
  apply bind_only; [apply H; now left|].
  intros s'. apply IH. intros; apply H; now right.
Qed.

Lemma for_each_raises {A S : Type} (items : list A)
      (body : A -> S -> result S) (a : A) :
  In a items -> (forall s, raises (body a s)) ->
  forall s, raises (for_each items body s).
Proof.
  induction items as [|b items IH]; intros Hin Hr s; [destruct Hin|].
  simpl. destruct Hin as [->|Hin].
  - destruct (Hr s) as [e ->]. now exists e.
  - destruct (body b s) as [s'|e]; simpl; [now apply IH | now exists e].
Qed.

Lemma for_each_returns {A S : Type} (items : list A)
      (body : A -> S -> result S) :
  (forall a s, In a items -> exists s', body a s = Ok s') ->
  forall s, exists s', for_each items body s = Ok s'.
Proof.
  induction items as [|a items IH]; intros H s; simpl; [now exists s|].
  destruct (H a s) as [s' ->]; [now left|]. simpl.
  apply IH. intros; apply H; now right.
Qed.

Lemma raises_only {A : Type} (m : result A) :
  raises m -> only_zero_division m -> m = Raise ZeroDivisionError.
Proof. intros [e ->]. simpl. now intros ->. Qed.

End LoopFacts.

Module HOFMFacts.
Import Spec PyFacts HOFM.
Section Facts.
Variable Key : Type.
Variable Key_eq_dec : forall a b : Key, {a = b} + {a <> b}.
Variable Opt : Type.

Lemma range_ge (lo : nat) (hi : Z) (l : nat) :
  In l (range lo hi) -> (lo <= l)%nat.
Proof. unfold range. intros H. apply in_seq in H. lia. Qed.

Lemma range_empty (lo : nat) (hi : Z) :
  (hi <= Z.of_nat lo)%Z -> range lo hi = [].
Proof.
  intros H. unfold range. replace (Z.to_nat (hi - Z.of_nat lo)) with 0%nat by lia.
  reflexivity.
Qed.

Lemma getitem_value (x : dict Key) (j : Key) :
  In j (keys x) -> getitem Key_eq_dec x j = Ok (value Key_eq_dec x j).
Proof.
  unfold value. induction x as [|[k a] x IH]; simpl; intros H; [destruct H|].
  destruct (Key_eq_dec k j) as [E|E]; [reflexivity|].
  destruct H as [H|H]; [contradiction|]. now apply IH.
Qed.

Lemma getitem_values (x : dict Key) (C : list Key) :
  incl C (keys x) ->
  map (getitem Key_eq_dec x) C = map Ok (map (value Key_eq_dec x) C).
Proof.
  intros H. rewrite map_map. apply map_ext_in. intros j Hj.
  apply getitem_value. now apply H.
Qed.

Lemma feature_product_Ok (x : dict Key) (C : list Key) :
  C <> [] -> incl C (keys x) ->
  reduce_mul (map (getitem Key_eq_dec x) C)
  = Ok (Rprod (map (value Key_eq_dec x) C)).
Proof.
  intros Hne Hin. rewrite getitem_values by assumption.
  apply reduce_mul_Ok. destruct C; [congruence | discriminate].
Qed.

Lemma latent_product_Ok (v : Key -> nat -> nat -> R) (l f : nat)
      (C : list Key) :
  C <> [] ->
  reduce_mul (map (fun j => Ok (v j l f)) C)
  = Ok (Rprod (map (fun j => v j l f) C)).
Proof.
  intros Hne. rewrite <- (map_map (fun j => v j l f) Ok).
  apply reduce_mul_Ok. destruct C; [congruence | discriminate].
Qed.

Lemma calculate_interaction_term (self : HOFM.t Key Opt) (x : dict Key)
      (l : nat) (C : list Key) :
  C <> [] -> incl C (keys x) ->
  _calculate_interaction Key_eq_dec self x l C
  = Ok (combination_term Key_eq_dec (latents (base self))
          (n_factors (base self)) x l C).
Proof.
  intros Hne Hin. unfold _calculate_interaction, combination_term.
  rewrite feature_product_Ok by assumption. simpl.
  rewrite (map_ext _ (fun f => Ok (Rprod (map (fun j => latents (base self) j l f) C)))).
  2:{ intros f. now apply latent_product_Ok. }
  rewrite <- (map_map (fun f => Rprod (map (fun j => latents (base self) j l f) C)) Ok).
  rewrite sum_Ok. reflexivity.
Qed.

Lemma combination_nonempty (ks : list Key) (l : nat) (C : list Key) :
  (1 <= l)%nat -> In C (combinations ks l) -> C <> [].
Proof.
  intros Hl HC E. apply combinations_length in HC. subst C. simpl in HC. lia.
Qed.

Lemma flat_map_Ok {A B : Type} (f : A -> B -> result R) (g : A -> B -> R)
      (h : A -> list B) (ls : list A) :
  (forall a b, In a ls -> In b (h a) -> f a b = Ok (g a b)) ->
  flat_map (fun a => map (f a) (h a)) ls
  = map Ok (flat_map (fun a => map (g a) (h a)) ls).
Proof.
  induction ls as [|a ls IH]; intros H; simpl; [reflexivity|].
  rewrite map_app, map_map. f_equal.
  - apply map_ext_in. intros b Hb. apply H; [now left | assumption].
  - apply IH. intros a' b Ha' Hb. apply H; [now right | assumption].
Qed.

Lemma order_term_short (v : Key -> nat -> nat -> R) (nf : Z) (x : dict Key)
      (l : nat) :
  (length (keys x) < l)%nat -> order_term Key_eq_dec v nf x l = 0.
Proof.
  intros H. unfold order_term.
  rewrite <- combinations_subsets, combinations_short by assumption.
  reflexivity.
Qed.

Lemma calculate_interactions_sum (self : HOFM.t Key Opt) (x : dict Key) :
  _calculate_interactions Key_eq_dec self x
  = Ok (interaction_sum Key_eq_dec (latents (base self))
          (n_factors (base self)) (degree self) x).
Proof.
  unfold _calculate_interactions, interaction_sum.
  rewrite (flat_map_Ok _
             (combination_term Key_eq_dec (latents (base self))
                (n_factors (base self)) x)).
  - rewrite sum_Ok, Rsum_flat_map. f_equal. f_equal.
    apply map_ext. intros l. unfold order_term.
    now rewrite combinations_subsets.
  - intros l C Hl HC. apply calculate_interaction_term.
    + apply (combination_nonempty (keys x) l); [|assumption].
      apply range_ge in Hl. lia.
    + now apply (combinations_incl _ l).
Qed.

(** C5. [_calculate_interactions(x)] is the sum, over the orders 2 to
    [degree] and the combinations of that many distinct keys of [x], of
    the product of the feature values times the factor-wise dot product
    of the latent vectors; an order above the number of keys contributes
    0, and with fewer than 2 keys the whole sum is 0. *)
Theorem calculate_interactions_spec (self : HOFM.t Key Opt) (x : dict Key) :
  _calculate_interactions Key_eq_dec self x
  = Ok (interaction_sum Key_eq_dec (latents (base self))
          (n_factors (base self)) (degree self) x)
  /\ (forall l, (length (keys x) < l)%nat ->
                order_term Key_eq_dec (latents (base self))
                  (n_factors (base self)) x l = 0)
  /\ ((length (keys x) < 2)%nat ->
      _calculate_interactions Key_eq_dec self x = Ok 0).
Proof.
  split; [apply calculate_interactions_sum|].
  split; [intros l; apply order_term_short|].
  intros H. rewrite calculate_interactions_sum. f_equal.
  unfold interaction_sum. apply Rsum_zero. intros l Hl.
  apply order_term_short. apply range_ge in Hl. lia.
Qed.

End Facts.
End HOFMFacts.

Module HOFMPairs.
Import Spec PyFacts HOFM HOFMFacts.
Section Facts.
Variable Key : Type.
Variable Key_eq_dec : forall a b : Key, {a = b} + {a <> b}.
Variable Opt : Type.

Lemma Rsum_scal {A : Type} (c : R) (g : A -> R) (l : list A) :
  Rsum (map (fun a => c * g a) l) = c * Rsum (map g l).
Proof. induction l as [|a l IH]; simpl; [ring | rewrite IH; ring]. Qed.

Lemma Rsum_plus {A : Type} (g h : A -> R) (l : list A) :
  Rsum (map (fun a => g a + h a) l) = Rsum (map g l) + Rsum (map h l).
Proof. induction l as [|a l IH]; simpl; [ring | rewrite IH; ring]. Qed.

Lemma Rsum_swap {A B : Type} (g : A -> B -> R) (la : list A) (lb : list B) :
  Rsum (map (fun a => Rsum (map (g a) lb)) la)
  = Rsum (map (fun b => Rsum (map (fun a => g a b) la)) lb).
Proof.
  induction la as [|a la IH]; simpl.
  - symmetry. now apply Rsum_zero.
  - rewrite IH. now rewrite <- Rsum_plus.
Qed.

Lemma Rprod_mult {A : Type} (g h : A -> R) (l : list A) :
  Rprod (map g l) * Rprod (map h l) = Rprod (map (fun a => h a * g a) l).
Proof. induction l as [|a l IH]; simpl; [ring | rewrite <- IH; ring]. Qed.

Lemma combinations_1 {A : Type} (pool : list A) :
  combinations pool 1 = map (fun a => [a]) pool.
Proof.
  induction pool as [|a pool IH]; simpl; [reflexivity|].
  now rewrite combinations_0, IH.
Qed.

(** The sum of the products over all pairs is half of the square of the
    sum minus the sum of the squares. *)
Lemma pairs_identity {A : Type} (a : A -> R) (ks : list A) :
  Rsum (map (fun C => Rprod (map a C)) (combinations ks 2))
  = ((Rsum (map a ks)) ^ 2 - Rsum (map (fun j => (a j) ^ 2) ks)) / 2.
Proof.
  induction ks as [|k ks IH].
  - simpl. field.
  - simpl combinations. rewrite map_app, Rsum_app, IH, combinations_1.
    rewrite !map_map. simpl.
    rewrite (Rsum_map_ext_in _ (fun j => a k * a j)).
    2:{ intros j _. ring. }
    rewrite Rsum_scal. field.
Qed.

Lemma order2_closed_form (v : Key -> nat -> nat -> R) (nf : Z)
      (x : dict Key) :
  order_term Key_eq_dec v nf x 2 = pairwise_closed_form Key_eq_dec v nf x.
Proof.
  unfold order_term, pairwise_closed_form, combination_term.
  rewrite <- combinations_subsets.
  rewrite (Rsum_map_ext_in _
    (fun C => Rsum (map (fun f =>
       Rprod (map (fun j => v j 2%nat f * value Key_eq_dec x j) C))
       (range 0 nf)))).
  2:{ intros C _. rewrite <- Rsum_scal. apply Rsum_map_ext_in. intros f _.
      apply Rprod_mult. }
  rewrite Rsum_swap. apply Rsum_map_ext_in. intros f _.
  rewrite (pairs_identity (fun j => v j 2%nat f * value Key_eq_dec x j)).
  f_equal. f_equal. apply Rsum_map_ext_in. intros j _. ring.
Qed.

(** C7. With [degree = 2] the interaction term obtained by enumerating
    the pairs equals the closed form of a pairwise factorization machine:
    the sum over the factors of (the square of the sum of latent times
    value, minus the sum of their squares) over 2. *)
Theorem degree2_pairwise_closed_form (self : HOFM.t Key Opt) (x : dict Key) :
  degree self = 2%Z ->
  _calculate_interactions Key_eq_dec self x
  = Ok (pairwise_closed_form Key_eq_dec (latents (base self))
          (n_factors (base self)) x).
Proof.
  intros Hd. rewrite calculate_interactions_sum. f_equal.
  unfold interaction_sum. rewrite Hd. simpl.
  rewrite order2_closed_form. ring.
Qed.

End Facts.
End HOFMPairs.

Module HOFMUpdate.
Import Spec PyFacts HOFM HOFMFacts LoopFacts.
Section Facts.
Variable Key : Type.
Variable Key_eq_dec : forall a b : Key, {a = b} + {a <> b}.
Variable Opt : Type.
Variable update_after_pred : Opt -> (nat -> R) -> list R -> Opt * (nat -> R).
Variable sign : R -> R.

(** *** The accumulation of the gradients (lines 92-101) *)

Lemma in_range (lo : nat) (hi : Z) (l : nat) :
  (lo <= l)%nat -> (Z.of_nat l < hi)%Z -> In l (range lo hi).
Proof. intros H1 H2. unfold range. apply in_seq. lia. Qed.

Lemma accumulate_gradients_returns (self : HOFM.t Key Opt) (x : dict Key) :
  (forall j l f,
      In j (keys x) -> In l (range 2 (degree self + 1)) ->
      In f (range 0 (n_factors (base self))) ->
      latents (base self) j l f <> 0) ->
  exists G, accumulate_gradients Key_eq_dec self x = Ok G.
Proof.
  intros Hnz. unfold accumulate_gradients.
  apply for_each_returns. intros l G Hl.
  apply for_each_returns. intros C G' HC.
  assert (Hin : incl C (keys x)) by now apply (combinations_incl _ l).
  assert (Hne : C <> []).
  { apply (combination_nonempty _ (keys x) l); [|assumption].
    apply range_ge in Hl. lia. }
  unfold accumulate_combination.
  rewrite feature_product_Ok by assumption. simpl.
  apply for_each_returns. intros f G'' Hf.
  rewrite latent_product_Ok by assumption. simpl.
  apply for_each_returns. intros k G3 Hk.
  rewrite truediv_nonzero by (apply Hnz; auto). simpl. eauto.
Qed.

End Facts.
End HOFMUpdate.

Module HOFMSnapshot.
Import Spec PyFacts HOFM HOFMFacts LoopFacts HOFMUpdate.

Section Facts.
Variable Key : Type.
Variable Key_eq_dec : forall a b : Key, {a = b} + {a <> b}.
Variable Opt : Type.
Variable update_after_pred : Opt -> (nat -> R) -> list R -> Opt * (nat -> R).
Variable sign : R -> R.

Lemma penalised_ext (nf : Z) (g_loss l1 l2 : R) (G : gradient_table Key)
      (v v0 : latent_table Key) (j : Key) (l : nat) :
  (forall f, v j l f = v0 j l f) ->
  penalised sign nf g_loss l1 l2 G v j l
  = penalised sign nf g_loss l1 l2 G v0 j l.
Proof.
  intros H. unfold penalised. apply map_ext. intros f. now rewrite H.
Qed.

Lemma set_latent_vector_other_key (T : latent_table Key) (j j' : Key)
      (l l' : nat) (w : nat -> R) (f : nat) :
  j' <> j -> set_latent_vector Key_eq_dec T j l w j' l' f = T j' l' f.
Proof.
  intros H. unfold set_latent_vector.
  destruct (Key_eq_dec j' j); [contradiction | reflexivity].
Qed.

Lemma set_latent_vector_other_order (T : latent_table Key) (j j' : Key)
      (l l' : nat) (w : nat -> R) (f : nat) :
  l' <> l -> set_latent_vector Key_eq_dec T j l w j' l' f = T j' l' f.
Proof.
  intros H. unfold set_latent_vector.
  destruct (Key_eq_dec j' j); [|reflexivity].
  destruct (Nat.eq_dec l' l); [contradiction | reflexivity].
Qed.

Lemma update_one_snapshot (nf : Z) (g_loss l1 l2 : R) (G : gradient_table Key)
      (v v0 : latent_table Key) (opt : Opt) (calls : list (call Key))
      (j : Key) (l : nat) :
  (forall f, v j l f = v0 j l f) ->
  exists opt1 w1,
    update_one Key_eq_dec update_after_pred sign nf g_loss l1 l2 G j
      (v, opt, calls) l
    = (set_latent_vector Key_eq_dec v j l w1, opt1,
       calls ++ [(j, l, penalised sign nf g_loss l1 l2 G v0 j l)]).
Proof.
  intros Hv. unfold update_one.
  rewrite (penalised_ext _ _ _ _ _ v v0) by assumption.
  destruct (update_after_pred opt (v j l)
              (penalised sign nf g_loss l1 l2 G v0 j l)) as [opt1 w1].
  now exists opt1, w1.
Qed.

(** The loop over the orders for one key: the vectors of the orders still
    to come are as in the snapshot, so every gradient dict is the
    snapshot's, and the vectors of the other keys are not touched. *)
Lemma orders_loop (nf : Z) (g_loss l1 l2 : R) (G : gradient_table Key)
      (v0 : latent_table Key) (j : Key) (orders : list nat) :
  NoDup orders ->
  forall (v : latent_table Key) (opt : Opt) (calls : list (call Key)),
    (forall l f, In l orders -> v j l f = v0 j l f) ->
    exists v' opt',
      fold_left
        (update_one Key_eq_dec update_after_pred sign nf g_loss l1 l2 G j)
        orders (v, opt, calls)
      = (v', opt',
         calls ++ map (fun l => (j, l, penalised sign nf g_loss l1 l2 G v0 j l))
                      orders)
      /\ (forall j' l f, j' <> j -> v' j' l f = v j' l f).
Proof.
  induction orders as [|l orders IH]; intros Hnd v opt calls Hv.
  - exists v, opt. simpl. rewrite app_nil_r. auto.
  - inversion Hnd as [|? ? Hnotin Hnd']; subst. cbn [fold_left map].
    destruct (update_one_snapshot nf g_loss l1 l2 G v v0 opt calls j l)
      as (opt1 & w1 & Hstep); [intros f; apply Hv; now left|].
    rewrite Hstep.
    destruct (IH Hnd' (set_latent_vector Key_eq_dec v j l w1) opt1
                 (calls ++ [(j, l, penalised sign nf g_loss l1 l2 G v0 j l)]))
      as (v' & opt' & Hfold & Hother).
    { intros l' f Hl'. rewrite set_latent_vector_other_order.
      - apply Hv. now right.
      - intros ->. contradiction. }
    exists v', opt'. split.
    + rewrite Hfold, <- app_assoc. reflexivity.
    + intros j' l' f Hj'. rewrite Hother by assumption.
      now apply set_latent_vector_other_key.
Qed.

Lemma apply_updates_snapshot (nf : Z) (orders : list nat)
      (g_loss l1 l2 : R) (G : gradient_table Key) (v0 : latent_table Key)
      (ks : list Key) :
  NoDup orders -> NoDup ks ->
  forall (v : latent_table Key) (opt : Opt) (calls : list (call Key)),
    (forall j l f, In j ks -> v j l f = v0 j l f) ->
    exists v' opt',
      apply_updates Key_eq_dec update_after_pred sign nf orders g_loss l1 l2
        G ks (v, opt, calls)
      = (v', opt',
         calls ++ snapshot_calls sign nf orders g_loss l1 l2 G v0 ks).
Proof.
  intros Hno. unfold apply_updates.
  induction ks as [|j ks IH]; intros Hnd v opt calls Hv.
  - exists v, opt. simpl. now rewrite app_nil_r.
  - inversion Hnd as [|? ? Hnotin Hnd']; subst. cbn [fold_left flat_map].
    destruct (orders_loop nf g_loss l1 l2 G v0 j orders Hno v opt calls)
      as (v1 & opt1 & Hfold & Hother).
    { intros l f _. apply Hv. now left. }
    rewrite Hfold.
    destruct (IH Hnd' v1 opt1
                 (calls ++ map (fun l => (j, l, penalised sign nf g_loss l1 l2 G v0 j l)) orders))
      as (v' & opt' & Hrest).
    { intros j' l f Hj'. rewrite Hother.
      - apply Hv. now right.
      - intros ->. contradiction. }
    exists v', opt'. rewrite Hrest, <- app_assoc. reflexivity.
Qed.

Lemma range_NoDup (lo : nat) (hi : Z) : NoDup (range lo hi).
Proof. apply seq_NoDup. Qed.

(** C6. Within one call of [_update_latents] every gradient dict handed
    to the latent optimizer is computed from the gradients accumulated
    before any update and from the latent values at the start of the
    call: the calls the optimizer receives are the ones computed from the
    snapshot, whatever the optimizer returns. *)
Theorem update_latents_gradients_from_snapshot
        (self : HOFM.t Key Opt) (x : dict Key) (g_loss : R) :
  NoDup (keys x) ->
  ((forall j l f,
       In j (keys x) -> In l (range 2 (degree self + 1)) ->
       In f (range 0 (n_factors (base self))) ->
       latents (base self) j l f <> 0) ->
   exists G, accumulate_gradients Key_eq_dec self x = Ok G)
  /\ (forall G,
         accumulate_gradients Key_eq_dec self x = Ok G ->
         exists self',
           _update_latents Key_eq_dec update_after_pred sign self x g_loss
           = Ok (self',
                 snapshot_calls sign (n_factors (base self))
                   (range 2 (degree self + 1)) g_loss
                   (l1_latent (base self)) (l2_latent (base self))
                   G (latents (base self)) (keys x))).
Proof.
  intros Hnd. split; [apply accumulate_gradients_returns|].
  intros G HG. unfold _update_latents. rewrite HG. simpl.
  destruct (apply_updates_snapshot (n_factors (base self))
              (range 2 (degree self + 1)) g_loss
              (l1_latent (base self)) (l2_latent (base self)) G
              (latents (base self)) (keys x) (range_NoDup _ _) Hnd
              (latents (base self)) (latent_optimizer (base self)) [])
    as (v' & opt' & Happ); [reflexivity|].
  rewrite Happ. simpl. eauto.
Qed.

End Facts.
End HOFMSnapshot.

Module NumpyFacts.
Import Spec PyFacts LoopFacts HOFMFacts HOFMUpdate.
Section Facts.
Variable Key : Type.
Variable Key_eq_dec : forall a b : Key, {a = b} + {a <> b}.
Variable Opt : Type.
Variable update_after_pred : Opt -> (nat -> R) -> list R -> Opt * (nat -> R).
Variable sign : R -> R.

Lemma add_NaN_l (a : Numpy.float64) : Numpy.add Numpy.NaN a = Numpy.NaN.
Proof. reflexivity. Qed.

Lemma add_NaN_r (a : Numpy.float64) : Numpy.add a Numpy.NaN = Numpy.NaN.
Proof. now destruct a. Qed.

Lemma divide_zero_zero : Numpy.divide 0 0 = Numpy.NaN.
Proof.
  unfold Numpy.divide. destruct (Req_dec_T 0 0); [reflexivity | congruence].
Qed.

Lemma for_each_preserves {A S : Type} (P : S -> Prop) (items : list A)
      (body : A -> S -> result S) :
  (forall a s s', In a items -> body a s = Ok s' -> P s -> P s') ->
  forall s s', for_each items body s = Ok s' -> P s -> P s'.
Proof.
  induction items as [|a items IH]; intros H s s' Hrun Hs.
  - simpl in Hrun. now inversion Hrun; subst.
  - simpl in Hrun. destruct (body a s) as [s1|e] eqn:Ha; [|discriminate].
    simpl in Hrun. apply (IH (fun a' t t' Hin => H a' t t' (or_intror Hin))
                             s1 s' Hrun).
    apply (H a s s1); auto. now left.
Qed.

Lemma for_each_establishes {A S : Type} (P : S -> Prop) (items : list A)
      (body : A -> S -> result S) (a0 : A) :
  (forall a s s', In a items -> body a s = Ok s' -> P s -> P s') ->
  In a0 items ->
  (forall s s', body a0 s = Ok s' -> P s') ->
  forall s s', for_each items body s = Ok s' -> P s'.
Proof.
  induction items as [|a items IH]; intros Hpres Hin Hest s s' Hrun;
    [destruct Hin|].
  simpl in Hrun. destruct (body a s) as [s1|e] eqn:Ha; [|discriminate].
  simpl in Hrun. destruct Hin as [->|Hin].
  - apply (for_each_preserves P items body
             (fun a' t t' Hin' => Hpres a' t t' (or_intror Hin')) s1 s' Hrun).
    now apply (Hest s s1).
  - apply (IH (fun a' t t' Hin' => Hpres a' t t' (or_intror Hin')) Hin Hest
              s1 s' Hrun).
Qed.

Lemma Rprod_has_zero {A : Type} (g : A -> R) (C : list A) (k : A) :
  In k C -> g k = 0 -> Rprod (map g C) = 0.
Proof.
  induction C as [|a C IH]; intros Hin Hz; [destruct Hin|]. simpl.
  destruct Hin as [->|Hin]; [rewrite Hz; ring | rewrite IH by assumption; ring].
Qed.

Lemma keys_loop_preserves (v : HOFM.latent_table Key) (l f : nat) (a : R)
      (C : list Key) (j0 : Key) (l0 f0 : nat) :
  forall G G',
    for_each C
      (fun j gradients =>
         Ok (Numpy.table_set Key_eq_dec gradients j l f
               (Numpy.add (gradients j l f) (Numpy.divide a (v j l f)))))
      G = Ok G' ->
    Numpy.poisoned j0 l0 f0 G -> Numpy.poisoned j0 l0 f0 G'.
Proof.
  apply for_each_preserves. intros k G G' _ Hbody HG.
  inversion Hbody; subst G'. unfold Numpy.poisoned, Numpy.table_set in *.
  destruct (Key_eq_dec j0 k) as [->|]; [|assumption].
  destruct (Nat.eq_dec l0 l) as [->|]; [|assumption].
  destruct (Nat.eq_dec f0 f) as [->|]; [|assumption].
  now rewrite HG.
Qed.

Lemma combination_preserves (v : HOFM.latent_table Key) (x : dict Key)
      (nf : Z) (l : nat) (C : list Key) (j0 : Key) (l0 f0 : nat) :
  forall G G',
    Numpy.accumulate_combination Key_eq_dec v x nf l C G = Ok G' ->
    Numpy.poisoned j0 l0 f0 G -> Numpy.poisoned j0 l0 f0 G'.
Proof.
  intros G G' Hrun. unfold Numpy.accumulate_combination in Hrun.
  destruct (reduce_mul (map (getitem Key_eq_dec x) C)) as [fp|e];
    [|discriminate].
  cbn [bind] in Hrun. revert G G' Hrun.
  apply for_each_preserves. intros f G G' _ Hbody.
  destruct (reduce_mul (map (fun j => Ok (v j l f)) C)) as [lp|e];
    [|discriminate].
  cbn [bind] in Hbody. revert Hbody. apply keys_loop_preserves.
Qed.

Lemma combination_poisons (v : HOFM.latent_table Key) (x : dict Key)
      (nf : Z) (l f : nat) (C : list Key) (j : Key) :
  In j C -> In f (range 0 nf) -> v j l f = 0 ->
  forall G G',
    Numpy.accumulate_combination Key_eq_dec v x nf l C G = Ok G' ->
    Numpy.poisoned j l f G'.
Proof.
  intros Hj Hf Hz G G' Hrun.
  assert (Hne : C <> []) by (intros ->; destruct Hj).
  unfold Numpy.accumulate_combination in Hrun.
  destruct (reduce_mul (map (getitem Key_eq_dec x) C)) as [fp|e];
    [|discriminate].
  cbn [bind] in Hrun. revert G G' Hrun.
  apply (for_each_establishes (Numpy.poisoned j l f) _ _ f); [|assumption|].
  - intros f' G G' _ Hbody.
    destruct (reduce_mul (map (fun k => Ok (v k l f')) C)) as [lp|e];
      [|discriminate].
    cbn [bind] in Hbody. revert Hbody. apply keys_loop_preserves.
  - intros G G' Hbody.
    rewrite latent_product_Ok in Hbody by assumption. cbn [bind] in Hbody.
    rewrite (Rprod_has_zero (fun k => v k l f) C j Hj Hz) in Hbody.
    revert G G' Hbody.
    apply (for_each_establishes (Numpy.poisoned j l f) _ _ j); [|assumption|].
    + intros k G G' _ Hbody HG.
      apply (keys_loop_preserves v l f (fp * 0) [k] j l f G G'); [|assumption].
      simpl. now rewrite Hbody.
    + intros G G' Hbody. inversion Hbody; subst G'.
      unfold Numpy.poisoned, Numpy.table_set.
      destruct (Key_eq_dec j j); [|congruence].
      destruct (Nat.eq_dec l l); [|congruence].
      destruct (Nat.eq_dec f f); [|congruence].
      rewrite Hz. replace (fp * 0) with 0 by ring.
      now rewrite divide_zero_zero, add_NaN_r.
Qed.

Lemma numpy_accumulate_returns (self : HOFM.t Key Opt) (x : dict Key) :
  exists G, Numpy.accumulate_gradients Key_eq_dec self x = Ok G.
Proof.
  unfold Numpy.accumulate_gradients.
  apply for_each_returns. intros l G Hl.
  apply for_each_returns. intros C G' HC.
  assert (Hin : incl C (keys x)) by now apply (combinations_incl _ l).
  assert (Hne : C <> []).
  { apply (combination_nonempty _ (keys x) l); [|assumption].
    apply range_ge in Hl. lia. }
  unfold Numpy.accumulate_combination.
  rewrite feature_product_Ok by assumption. cbn [bind].
  apply for_each_returns. intros f G'' Hf.
  rewrite latent_product_Ok by assumption. cbn [bind].
  apply for_each_returns. intros k G3 Hk. eauto.
Qed.

Lemma numpy_accumulate_poisons (self : HOFM.t Key Opt) (x : dict Key)
      (j : Key) (l f : nat) (G : Numpy.gradient_table Key) :
  In j (keys x) ->
  (2 <= l)%nat -> (Z.of_nat l <= HOFM.degree self)%Z ->
  (l <= length (keys x))%nat ->
  (Z.of_nat f < HOFM.n_factors (HOFM.base self))%Z ->
  HOFM.latents (HOFM.base self) j l f = 0 ->
  Numpy.accumulate_gradients Key_eq_dec self x = Ok G ->
  G j l f = Numpy.NaN.
Proof.
  intros Hj Hl2 Hld Hlk Hf Hz Hrun.
  destruct (combinations_cover (keys x) l j Hj) as (C & HC & HjC); [lia|].
  unfold Numpy.accumulate_gradients in Hrun. revert Hrun.
  apply (for_each_establishes (Numpy.poisoned j l f) _ _ l).
  - intros l' G0 G0' _. apply for_each_preserves.
    intros C' G1 G1' _. apply combination_preserves.
  - apply in_range; lia.
  - intros G0 G0'.
    apply (for_each_establishes (Numpy.poisoned j l f) _ _ C); [|assumption|].
    + intros C' G1 G1' _. apply combination_preserves.
    + intros G1 G1'. apply combination_poisons; auto. apply in_range; lia.
Qed.


(** *** The two readings of line 101 *)

Lemma for_each_simulation {A S T : Type} (related : S -> T -> Prop)
      (items : list A) (body : A -> S -> result S)
      (body' : A -> T -> result T) :
  (forall a s t s', In a items -> related s t -> body a s = Ok s' ->
                    exists t', body' a t = Ok t' /\ related s' t') ->
  forall s t s', related s t -> for_each items body s = Ok s' ->
                 exists t', for_each items body' t = Ok t' /\ related s' t'.
Proof.
  induction items as [|a items IH]; intros H s t s' Hst Hrun.
  - simpl in *. inversion Hrun; subst. now exists t.
  - simpl in Hrun. destruct (body a s) as [s1|e] eqn:Ha; [|discriminate].
    simpl in Hrun.
    destruct (H a s t s1 (or_introl eq_refl) Hst Ha) as (t1 & Ht1 & Hr1).
    destruct (IH (fun a' u w u' Hin => H a' u w u' (or_intror Hin))
                 s1 t1 s' Hr1 Hrun) as (t' & Ht' & Hr').
    exists t'. simpl. rewrite Ht1. simpl. auto.
Qed.

Lemma divide_truediv (a b d : R) :
  truediv a b = Ok d -> Numpy.divide a b = Numpy.Finite d.
Proof.
  unfold truediv, Numpy.divide. destruct (Req_dec_T b 0); [discriminate|].
  now intros [= <-].
Qed.

Lemma accumulate_combination_agrees (v : HOFM.latent_table Key)
      (x : dict Key) (nf : Z) (l : nat) (C : list Key)
      (G G' : HOFM.gradient_table Key) (N : Numpy.gradient_table Key) :
  Numpy.finite_copy G N ->
  HOFM.accumulate_combination Key_eq_dec v x nf l C G = Ok G' ->
  exists N', Numpy.accumulate_combination Key_eq_dec v x nf l C N = Ok N'
             /\ Numpy.finite_copy G' N'.
Proof.
  intros HGN. unfold HOFM.accumulate_combination,
    Numpy.accumulate_combination.
  destruct (reduce_mul (map (getitem Key_eq_dec x) C)) as [fp|e];
    [|discriminate].
  simpl. revert G N G' HGN.
  apply for_each_simulation. intros f G N G' _ HGN.
  destruct (reduce_mul (map (fun j => Ok (v j l f)) C)) as [lp|e];
    [|discriminate].
  simpl. revert G N G' HGN.
  apply for_each_simulation. intros j G N G' _ HGN Hbody.
  destruct (truediv (fp * lp) (v j l f)) as [d|e] eqn:Hd; [|discriminate].
  simpl in Hbody. inversion Hbody; subst G'. eexists. split; [reflexivity|].
  intros j' l' f'. unfold Numpy.table_set, HOFM.table_set.
  destruct (Key_eq_dec j' j); [|apply HGN].
  destruct (Nat.eq_dec l' l); [|apply HGN].
  destruct (Nat.eq_dec f' f); [|apply HGN].
  rewrite (divide_truediv _ _ _ Hd), HGN. reflexivity.
Qed.

(** X19. When the accumulation of lines 92-101 completes on Python floats,
    that is when no divisor of line 101 is zero, it completes on numpy
    scalars as well, with the same gradients, all of them finite. *)
Theorem accumulate_gradients_agree (self : HOFM.t Key Opt) (x : dict Key)
        (G : HOFM.gradient_table Key) :
  HOFM.accumulate_gradients Key_eq_dec self x = Ok G ->
  exists N,
    Numpy.accumulate_gradients Key_eq_dec self x = Ok N
    /\ forall j l f, N j l f = Numpy.Finite (G j l f).
Proof.
  unfold HOFM.accumulate_gradients, Numpy.accumulate_gradients.
  intros Hrun.
  assert (H0 : Numpy.finite_copy (@HOFM.no_gradients Key)
                 (@Numpy.no_gradients Key))
    by (intros j l f; reflexivity).
  revert Hrun. revert H0. generalize (@Numpy.no_gradients Key).
  generalize (@HOFM.no_gradients Key). intros G0 N0. revert G0 N0 G.
  apply for_each_simulation. intros l G0 N0 G1 _. revert G0 N0 G1.
  apply for_each_simulation. intros C G2 N2 G3 _.
  apply accumulate_combination_agrees.
Qed.

End Facts.
End NumpyFacts.

Module HedgeFacts.
Import Spec PyFacts LoopFacts HedgeRegressor.
Section Facts.
Variable X : Type.
Variable Regressor : Type.
Variable member_predict_one : Regressor -> X -> R.
Variable member_fit_one : Regressor -> X -> R -> Regressor.

Lemma list_get_middle {A : Type} (pre : list A) (a : A) (post : list A) :
  list_get (pre ++ a :: post) (length pre) = Ok a.
Proof.
  unfold list_get. rewrite nth_error_app2 by lia.
  now rewrite Nat.sub_diag.
Qed.

Lemma list_set_middle {A : Type} (pre : list A) (a b : A) (post : list A) :
  list_set (pre ++ a :: post) (length pre) b = pre ++ b :: post.
Proof. induction pre as [|c pre IH]; simpl; [reflexivity | now rewrite IH]. Qed.

Lemma INR_length_nonzero {A : Type} (l : list A) : l <> [] -> INR (length l) <> 0.
Proof.
  intros H. apply not_0_INR. destruct l; [congruence | discriminate].
Qed.

(** The loop of [fit_predict_one] in closed form. *)
Lemma member_loop_spec (self : t Regressor) (x : X) (y : R) :
  forall (members : list Regressor) (ws pre : list R) (s : loop_state Regressor),
    cur_weights s = pre ++ ws ->
    length ws = length members ->
    (members <> [] -> models self <> []) ->
    member_loop member_predict_one member_fit_one self x y (length pre)
      members s
    = Ok {| y_pred_mean :=
              mean_pass (INR (length (models self)))
                (combine ws (map (fun r => member_predict_one r x) members))
                (y_pred_mean s);
            total :=
              total s
              + Rsum (map (fun '(w, r) =>
                             w * update_factor member_predict_one self x y r)
                          (combine ws members));
            cur_weights :=
              pre ++ map (fun '(w, r) =>
                            w * update_factor member_predict_one self x y r)
                         (combine ws members);
            fitted := fitted s ++ map (fun r => member_fit_one r x y) members |}.
Proof.
  induction members as [|r members IH]; intros ws pre s Hw Hlen Hne.
  - destruct ws; [|discriminate]. simpl. destruct s as [m t w f]. simpl in *.
    subst w. unfold mean_pass. simpl. rewrite !app_nil_r. do 2 f_equal. ring.
  - destruct ws as [|w ws]; [discriminate|]. simpl in Hlen.
    cbn [member_loop]. rewrite Hw, list_get_middle. cbn [bind].
    rewrite truediv_nonzero
      by (apply INR_length_nonzero, Hne; discriminate).
    cbn [bind]. rewrite list_set_middle.
    replace (S (length pre)) with (length (pre ++ [w * exp (- learning_rate self * loss self y (member_predict_one r x))])).
    2:{ rewrite length_app. simpl. lia. }
    rewrite (IH ws).
    + cbn [y_pred_mean total cur_weights fitted map combine fold_left mean_pass Rsum fold_right].
      unfold update_factor. rewrite <- !app_assoc. simpl.
      do 2 f_equal. unfold Rsum. ring.
    + cbn [cur_weights]. now rewrite <- app_assoc.
    + lia.
    + intros _. apply Hne. discriminate.
Qed.

Lemma run_loop_spec (self : t Regressor) (x : X) (y : R) :
  length (weights self) = length (models self) ->
  run_loop member_predict_one member_fit_one self x y
  = Ok {| y_pred_mean :=
            mean_pass (INR (length (models self)))
              (combine (weights self)
                 (map (fun r => member_predict_one r x) (models self)))
              0;
          total := Rsum (post_update_weights member_predict_one self x y);
          cur_weights := post_update_weights member_predict_one self x y;
          fitted := map (fun r => member_fit_one r x y) (models self) |}.
Proof.
  intros Hlen. unfold run_loop.
  pose proof (member_loop_spec self x y (models self) (weights self) []
                {| y_pred_mean := 0; total := 0; cur_weights := weights self;
                   fitted := [] |}) as H.
  cbn [length app y_pred_mean total cur_weights fitted] in H.
  rewrite H; auto.
  unfold post_update_weights. do 2 f_equal. ring.
Qed.

Lemma fit_predict_one_spec (self : t Regressor) (x : X) (y : R) :
  length (weights self) = length (models self) ->
  fit_predict_one member_predict_one member_fit_one self x y
  = Ok (mean_pass (INR (length (models self)))
          (combine (weights self)
             (map (fun r => member_predict_one r x) (models self)))
          0,
        after_fit member_predict_one member_fit_one self x y).
Proof.
  intros Hlen. unfold fit_predict_one. rewrite run_loop_spec by assumption.
  reflexivity.
Qed.

Lemma fit_one_spec (self : t Regressor) (x : X) (y : R) :
  length (weights self) = length (models self) ->
  fit_one member_predict_one member_fit_one self x y = Ok (after_fit member_predict_one member_fit_one self x y).
Proof.
  intros Hlen. unfold fit_one. rewrite fit_predict_one_spec by assumption.
  reflexivity.
Qed.

Lemma truthy_nonzero (a : R) : a <> 0 -> truthy a = true.
Proof. unfold truthy. destruct (Req_dec_T a 0); [contradiction | reflexivity]. Qed.

Lemma truthy_zero : truthy 0 = false.
Proof. unfold truthy. destruct (Req_dec_T 0 0); [reflexivity | congruence]. Qed.

Lemma normalize_length (t0 : R) (ws : list R) :
  length (normalize t0 ws) = length ws.
Proof. unfold normalize. destruct (truthy t0); [apply length_map | reflexivity]. Qed.

Lemma post_update_weights_length (self : t Regressor) (x : X) (y : R) :
  length (weights self) = length (models self) ->
  length (post_update_weights member_predict_one self x y)
  = length (models self).
Proof.
  intros H. unfold post_update_weights. rewrite length_map, length_combine. lia.
Qed.

Lemma after_fit_lengths (self : t Regressor) (x : X) (y : R) :
  length (weights self) = length (models self) ->
  length (weights (after_fit member_predict_one member_fit_one self x y)) = length (models (after_fit member_predict_one member_fit_one self x y))
  /\ length (models (after_fit member_predict_one member_fit_one self x y)) = length (models self).
Proof.
  intros H. unfold after_fit. simpl.
  rewrite normalize_length, post_update_weights_length, length_map by assumption.
  auto.
Qed.

Lemma Rsum_div (t0 : R) (ws : list R) :
  Rsum (map (fun w => w / t0) ws) = Rsum ws / t0.
Proof.
  induction ws as [|w ws IH]; simpl.
  - unfold Rdiv. ring.
  - rewrite IH. unfold Rdiv. ring.
Qed.

Lemma normalize_sums_to_one (ws : list R) :
  Rsum ws <> 0 -> Rsum (normalize (Rsum ws) ws) = 1.
Proof.
  intros H. unfold normalize. rewrite truthy_nonzero by assumption.
  rewrite Rsum_div. now field.
Qed.

Lemma normalize_skipped (ws : list R) :
  Rsum ws = 0 -> normalize (Rsum ws) ws = ws.
Proof. intros H. unfold normalize. now rewrite H, truthy_zero. Qed.

(** Any stream of samples is processed without an exception, and the
    weights stay aligned with the members. *)
Lemma fit_many_returns (samples : list (X * R)) :
  forall self : t Regressor,
    length (weights self) = length (models self) ->
    exists self',
      fit_many member_predict_one member_fit_one self samples = Ok self'
      /\ length (weights self') = length (models self')
      /\ length (models self') = length (models self).
Proof.
  induction samples as [|[x y] samples IH]; intros self Hlen.
  - exists self. simpl. auto.
  - simpl. rewrite fit_one_spec by assumption. simpl.
    destruct (after_fit_lengths self x y Hlen) as [H1 H2].
    destruct (IH (after_fit member_predict_one member_fit_one self x y) H1) as (self' & Hfit & Hl & Hm).
    exists self'. repeat split; auto. congruence.
Qed.

End Facts.
End HedgeFacts.

Module HedgeProperties.
Import Spec PyFacts LoopFacts HedgeRegressor HedgeFacts.
Section Facts.
Variable X : Type.
Variable Regressor : Type.
Variable member_predict_one : Regressor -> X -> R.
Variable member_fit_one : Regressor -> X -> R -> Regressor.
Variable Squared : R -> R -> R.

Lemma fit_many_app (a b : list (X * R)) :
  forall self : t Regressor,
    fit_many member_predict_one member_fit_one self (a ++ b)
    = bind (fit_many member_predict_one member_fit_one self a)
           (fun self' => fit_many member_predict_one member_fit_one self' b).
Proof.
  induction a as [|[x y] a IH]; intros self; [reflexivity|]. simpl.
  destruct (fit_one member_predict_one member_fit_one self x y); simpl;
    [apply IH | reflexivity].
Qed.

(** C4. After any stream of [fit_one] calls, one more call, [fit_one] or
    [fit_predict_one], leaves the same weights: they sum to 1 when the
    total of the multiplicatively updated weights is not zero, and are
    exactly the updated weights when it is zero. *)
Theorem hedge_weight_simplex (self : t Regressor) (samples : list (X * R))
        (x : X) (y : R) :
  length (weights self) = length (models self) ->
  exists self1 s y_pred self',
    fit_many member_predict_one member_fit_one self samples = Ok self1
    /\ run_loop member_predict_one member_fit_one self1 x y = Ok s
    /\ fit_predict_one member_predict_one member_fit_one self1 x y
       = Ok (y_pred, self')
    /\ fit_one member_predict_one member_fit_one self1 x y = Ok self'
    /\ fit_many member_predict_one member_fit_one self
         (samples ++ [(x, y)]) = Ok self'
    /\ cur_weights s = post_update_weights member_predict_one self1 x y
    /\ total s = Rsum (cur_weights s)
    /\ (total s <> 0 -> Rsum (weights self') = 1)
    /\ (total s = 0 -> weights self' = cur_weights s).
Proof.
  intros Hlen.
  destruct (fit_many_returns X Regressor member_predict_one member_fit_one
              samples self Hlen) as (self1 & Hfit & Hlen1 & _).
  exists self1. eexists. eexists. eexists.
  split; [exact Hfit|].
  split; [apply run_loop_spec; assumption|].
  split; [apply fit_predict_one_spec; assumption|].
  split; [apply fit_one_spec; assumption|].
  split.
  { rewrite fit_many_app, Hfit. cbn [bind fit_many].
    rewrite fit_one_spec by assumption. reflexivity. }
  cbn [cur_weights total after_fit weights].
  split; [reflexivity|]. split; [reflexivity|]. split.
  - apply normalize_sums_to_one.
  - apply normalize_skipped.
Qed.

Lemma nth_error_post (self : t Regressor) (x : X) (y : R) (i : nat)
      (w : R) (r : Regressor) :
  nth_error (weights self) i = Some w ->
  nth_error (models self) i = Some r ->
  nth_error (post_update_weights member_predict_one self x y) i = Some (w * update_factor member_predict_one self x y r).
Proof.
  unfold post_update_weights.
  generalize (weights self) (models self). intros ws. revert i.
  induction ws as [|w0 ws IH]; intros i ms Hw Hr.
  - destruct i; discriminate.
  - destruct ms as [|r0 ms]; [destruct i; discriminate|].
    destruct i as [|i]; simpl in *.
    + now inversion Hw; inversion Hr; subst.
    + now apply IH.
Qed.

(** C8. For two members with positive weights, a positive learning rate
    and losses [loss_a < loss_b] on the sample, the ratio of their
    weights after the multiplicative update, before normalisation, is
    strictly greater than before the update. *)
Theorem hedge_monotonic_reweighting (self : t Regressor) (x : X) (y : R)
        (ia ib : nat) (wa wb : R) (ra rb : Regressor) :
  length (weights self) = length (models self) ->
  nth_error (weights self) ia = Some wa ->
  nth_error (weights self) ib = Some wb ->
  nth_error (models self) ia = Some ra ->
  nth_error (models self) ib = Some rb ->
  0 < wa -> 0 < wb -> 0 < learning_rate self ->
  loss self y (member_predict_one ra x) < loss self y (member_predict_one rb x) ->
  exists s wa' wb',
    run_loop member_predict_one member_fit_one self x y = Ok s
    /\ nth_error (cur_weights s) ia = Some wa'
    /\ nth_error (cur_weights s) ib = Some wb'
    /\ wa' = wa * exp (- learning_rate self
                       * loss self y (member_predict_one ra x))
    /\ wb' = wb * exp (- learning_rate self
                       * loss self y (member_predict_one rb x))
    /\ wa / wb < wa' / wb'.
Proof.
  intros Hlen Hwa Hwb Hra Hrb Pa Pb Plr Hloss.
  eexists. eexists. eexists.
  split; [apply run_loop_spec; assumption|].
  cbn [cur_weights].
  split; [apply nth_error_post; eassumption|].
  split; [apply nth_error_post; eassumption|].
  unfold update_factor.
  split; [reflexivity|]. split; [reflexivity|].
  set (la := loss self y (member_predict_one ra x)) in *.
  set (lb := loss self y (member_predict_one rb x)) in *.
  assert (Hexp : exp (- learning_rate self * lb) < exp (- learning_rate self * la)).
  { apply exp_increasing. nra. }
  assert (Hpos : 0 < exp (- learning_rate self * lb)) by apply exp_pos.
  set (ea := exp (- learning_rate self * la)) in *.
  set (eb := exp (- learning_rate self * lb)) in *.
  replace (wa * ea / (wb * eb)) with ((wa / wb) * (ea / eb)) by (field; lra).
  assert (Hq : 0 < wa / wb) by (apply Rdiv_lt_0_compat; assumption).
  assert (Hr1 : 1 < ea / eb).
  { apply (Rmult_lt_reg_r eb); [assumption|].
    replace (ea / eb * eb) with ea by (field; lra). lra. }
  nra.
Qed.

(** *** Positivity of the weights *)

Lemma positive_post (self : t Regressor) (x : X) (y : R) :
  positive (weights self) -> positive (post_update_weights member_predict_one self x y).
Proof.
  unfold positive, post_update_weights.
  generalize (models self). induction (weights self) as [|w ws IH];
    intros ms H; simpl; [constructor|].
  destruct ms as [|r ms]; simpl; [constructor|].
  inversion H; subst. constructor; [|now apply IH].
  apply Rmult_lt_0_compat; [assumption | apply exp_pos].
Qed.

Lemma positive_sum (ws : list R) : positive ws -> ws <> [] -> 0 < Rsum ws.
Proof.
  induction 1 as [|w ws Hw Hws IH]; intros Hne; [congruence|]. simpl.
  destruct ws as [|w' ws]; [simpl; lra|].
  assert (0 < Rsum (w' :: ws)) by (apply IH; discriminate). lra.
Qed.

Lemma positive_normalize (ws : list R) :
  positive ws -> positive (normalize (Rsum ws) ws).
Proof.
  intros H. destruct ws as [|w ws].
  - unfold normalize. destruct (truthy _); constructor.
  - assert (Hs : 0 < Rsum (w :: ws)) by (apply positive_sum; [assumption | discriminate]).
    unfold normalize. rewrite truthy_nonzero by lra.
    unfold positive in *. apply Forall_map.
    eapply Forall_impl; [|exact H]. simpl. intros a Ha.
    now apply Rdiv_lt_0_compat.
Qed.

Lemma positive_init (regs : list Regressor) (l : option (R -> R -> R))
      (lr : R) :
  positive (weights (__init__ Squared regs l lr)).
Proof.
  unfold positive. simpl. induction regs; simpl; constructor; [lra | assumption].
Qed.

Lemma fit_many_positive (samples : list (X * R)) :
  forall self : t Regressor,
    length (weights self) = length (models self) ->
    positive (weights self) ->
    exists self',
      fit_many member_predict_one member_fit_one self samples = Ok self'
      /\ length (weights self') = length (models self')
      /\ length (models self') = length (models self)
      /\ positive (weights self').
Proof.
  induction samples as [|[x y] samples IH]; intros self Hlen Hpos.
  - exists self. simpl. auto.
  - simpl. rewrite fit_one_spec by assumption. simpl.
    destruct (after_fit_lengths X Regressor member_predict_one member_fit_one
                self x y Hlen) as [H1 H2].
    destruct (IH (after_fit member_predict_one member_fit_one self x y) H1)
      as (self' & Hfit & Hl & Hm & Hp).
    { unfold after_fit. simpl. apply positive_normalize, positive_post, Hpos. }
    exists self'. repeat split; auto. congruence.
Qed.

Lemma init_lengths (regs : list Regressor) (l : option (R -> R -> R))
      (lr : R) :
  length (weights (__init__ Squared regs l lr))
  = length (models (__init__ Squared regs l lr)).
Proof. simpl. apply repeat_length. Qed.

(** C9 (as the code has it). With at least one member, every weight is
    strictly positive after construction and after every call, the total
    of the updated weights is strictly positive at every call, and so the
    branch that skips the normalisation is never taken. *)
Theorem hedge_weights_positive (regs : list Regressor)
        (l : option (R -> R -> R)) (lr : R) (samples : list (X * R))
        (x : X) (y : R) :
  regs <> [] ->
  exists self s,
    fit_many member_predict_one member_fit_one (__init__ Squared regs l lr)
      samples = Ok self
    /\ positive (weights self)
    /\ run_loop member_predict_one member_fit_one self x y = Ok s
    /\ positive (cur_weights s)
    /\ 0 < total s
    /\ truthy (total s) = true.
Proof.
  intros Hne.
  destruct (fit_many_positive samples (__init__ Squared regs l lr)
              (init_lengths regs l lr) (positive_init regs l lr))
    as (self & Hfit & Hlen & Hm & Hpos).
  exists self. eexists.
  split; [exact Hfit|]. split; [exact Hpos|].
  split; [apply run_loop_spec; assumption|].
  cbn [cur_weights total].
  assert (Hpp : positive (post_update_weights member_predict_one self x y)) by now apply positive_post.
  assert (Hs : 0 < Rsum (post_update_weights member_predict_one self x y)).
  { apply positive_sum; [assumption|]. intros E.
    apply (f_equal (@length R)) in E.
    rewrite post_update_weights_length in E by assumption.
    rewrite Hm in E. simpl in E. destruct regs; [congruence | discriminate]. }
  split; [assumption|]. split; [assumption|].
  apply truthy_nonzero. lra.
Qed.

(** C10. With an empty member list [fit_predict_one] returns 0.0 and
    [predict_one] returns 0; neither raises and the state is unchanged. *)
Theorem hedge_empty_ensemble (l : option (R -> R -> R)) (lr : R)
        (x : X) (y : R) :
  fit_predict_one member_predict_one member_fit_one
    (__init__ Squared [] l lr) x y
  = Ok (0, __init__ Squared [] l lr)
  /\ fit_one member_predict_one member_fit_one (__init__ Squared [] l lr) x y
     = Ok (__init__ Squared [] l lr)
  /\ predict_one member_predict_one (__init__ Squared [] l lr) x = Ok 0.
Proof.
  assert (H : fit_predict_one member_predict_one member_fit_one
                (__init__ Squared [] l lr) x y
              = Ok (0, __init__ Squared [] l lr)).
  { unfold fit_predict_one, run_loop, __init__, normalize. simpl.
    destruct (truthy 0); reflexivity. }
  split; [exact H|]. split.
  - unfold fit_one. rewrite H. reflexivity.
  - reflexivity.
Qed.

End Facts.
End HedgeProperties.

(** ** Construction *)

Module Construction.
Import Spec HOFMFacts HedgeBase.

(** C3 (as the code has it). Neither constructor checks its
    configuration: each raises exactly when the initialiser of its base
    class, outside this file, raises on what it is handed, and [degree]
    is not handed to [BaseFM.__init__].  So when the base class accepts
    the other arguments a machine is built with any [degree], stored as
    given, and with [degree < 2] its interaction term is 0; and when
    [base.Ensemble] accepts an empty member list the ensemble is built
    with no weight. *)
Theorem construction_checks_nothing
        {Key Opt Args Regressor : Type}
        (Key_eq_dec : forall a b : Key, {a = b} + {a <> b})
        (base_init : Args -> result (HOFM.BaseFM Key Opt))
        (d : Z) (args : Args) (b : HOFM.BaseFM Key Opt)
        (ensemble_init : list Regressor -> result (list Regressor))
        (members : list Regressor)
        (Squared : R -> R -> R) (l : option (R -> R -> R)) (lr : R) :
  base_init args = Ok b ->
  ensemble_init [] = Ok members ->
  HOFM.__init__ base_init d args = Ok {| HOFM.base := b; HOFM.degree := d |}
  /\ ((d < 2)%Z ->
      forall x,
        HOFM._calculate_interactions Key_eq_dec
          {| HOFM.base := b; HOFM.degree := d |} x = Ok 0)
  /\ init_with_base Squared ensemble_init [] l lr
     = Ok {| HedgeRegressor.models := members;
             HedgeRegressor.loss :=
               match l with None => Squared | Some f => f end;
             HedgeRegressor.learning_rate := lr;
             HedgeRegressor.weights := [] |}
  /\ (forall d' args' e,
         HOFM.__init__ base_init d' args' = Raise e
         <-> base_init args' = Raise e)
  /\ (forall regs l' lr' e,
         init_with_base Squared ensemble_init regs l' lr' = Raise e
         <-> ensemble_init regs = Raise e).
Proof.
  intros Hb He. split.
  { unfold HOFM.__init__. rewrite Hb. reflexivity. }
  split.
  { intros Hd x. rewrite calculate_interactions_sum. f_equal.
    unfold interaction_sum. cbn [HOFM.degree].
    rewrite range_empty by (simpl; lia). reflexivity. }
  split.
  { unfold init_with_base. rewrite He. reflexivity. }
  split.
  - intros d' args' e. unfold HOFM.__init__.
    destruct (base_init args') as [b'|e']; simpl; split; intros H;
      try discriminate; now inversion H.
  - intros regs l' lr' e. unfold init_with_base.
    destruct (ensemble_init regs) as [ms|e']; simpl; split; intros H;
      try discriminate; now inversion H.
Qed.

End Construction.

(** ** The properties at concrete inputs *)

Module Instances.
Import Spec Examples FurtherExamples PyFacts LoopFacts HOFMFacts HOFMPairs
       HOFMUpdate HOFMSnapshot NumpyFacts HedgeFacts HedgeProperties
       Construction.
Local Open Scope string_scope.

Lemma x_three_keys_NoDup : NoDup (keys x_three).
Proof.
  repeat constructor; simpl; intuition discriminate.
Qed.



Lemma calculate_interactions_spec_witness :
  HOFM._calculate_interactions string_dec (machine all_ones 3 1) x_one = Ok 0.
Proof.
  apply (proj2 (proj2 (calculate_interactions_spec string string_dec unit
                         (machine all_ones 3 1) x_one))).
  simpl; lia.
Defined.

Lemma update_latents_gradients_from_snapshot_witness :
  NoDup (keys x_three)
  /\ exists G self',
      HOFM.accumulate_gradients string_dec (machine all_ones 3 1) x_three
      = Ok G
      /\ HOFM._update_latents string_dec sgd_step sign (machine all_ones 3 1)
           x_three 1
         = Ok (self',
               snapshot_calls sign 1 (range 2 (3 + 1)) 1 0 0 G all_ones
                 (keys x_three)).
Proof.
  split; [exact x_three_keys_NoDup|].
  destruct (update_latents_gradients_from_snapshot string string_dec unit
              sgd_step sign (machine all_ones 3 1) x_three 1
              x_three_keys_NoDup) as [HA HB].
  destruct HA as [G HG].
  - intros j l f _ _ _. unfold all_ones. simpl. lra.
  - destruct (HB G HG) as [self' Hs].
    exists G, self'. split; [exact HG | exact Hs].
Defined.

Lemma degree2_pairwise_closed_form_witness :
  HOFM._calculate_interactions string_dec (machine all_ones 2 1) x_two
  = Ok (pairwise_closed_form string_dec all_ones 1 x_two).
Proof.
  apply (degree2_pairwise_closed_form string string_dec unit
           (machine all_ones 2 1) x_two).
  reflexivity.
Defined.

(** With [degree = 1] and a base class that accepts the other arguments
    the machine is built: construction does not raise. *)
Lemma construction_accepts_degree_1 :
  (1 < 2)%Z
  /\ HOFM.__init__ stored_attributes 1 (attributes all_ones 1)
     = Ok (machine all_ones 1 1).
Proof. split; [lia | reflexivity]. Qed.

Lemma construction_checks_nothing_witness :
  HOFM.__init__ stored_attributes 0 (attributes all_ones 1)
  = Ok (machine all_ones 0 1)
  /\ (forall x,
         HOFM._calculate_interactions string_dec (machine all_ones 0 1) x
         = Ok 0)
  /\ HedgeBase.init_with_base squared kept_members [] None (1 / 2)
     = Ok (hedge []).
Proof.
  destruct (@construction_checks_nothing string unit _ R string_dec
              stored_attributes 0 (attributes all_ones 1)
              (attributes all_ones 1) kept_members [] squared None (1 / 2)
              eq_refl eq_refl)
    as (H1 & H2 & H3 & _).
  split; [exact H1|]. split; [apply H2; lia | exact H3].
Defined.

(** *** The ensemble *)

(** C2 (the code at the failing input). With two fresh members
    predicting 1 and 0, [fit_predict_one] returns 1/4, and 1/2 when the
    same members come in the other order; their plain weighted average
    under the weights [1; 1] is 1/2. *)
Theorem fit_predict_one_mean_depends_on_order :
  (exists h,
      HedgeRegressor.fit_predict_one constant_predict constant_fit
        (hedge [1; 0]) tt 0 = Ok (1 / 4, h))
  /\ (exists h,
         HedgeRegressor.fit_predict_one constant_predict constant_fit
           (hedge [0; 1]) tt 0 = Ok (1 / 2, h))
  /\ HedgeRegressor.weights (hedge [1; 0]) = [1; 1]
  /\ weighted_average [1; 1] [1; 0] = 1 / 2
  /\ weighted_average [1; 1] [0; 1] = 1 / 2.
Proof.
  split; [|split; [|split; [reflexivity|]]].
  - eexists. rewrite fit_predict_one_spec by reflexivity.
    f_equal. f_equal. unfold mean_pass, constant_predict. simpl. field.
  - eexists. rewrite fit_predict_one_spec by reflexivity.
    f_equal. f_equal. unfold mean_pass, constant_predict. simpl. field.
  - unfold weighted_average, Rsum. simpl. split; field.
Qed.

Lemma hedge_weight_simplex_witness :
  exists self1 s y_pred self',
    HedgeRegressor.fit_many constant_predict constant_fit (hedge [1; 0])
      [(tt, 0)] = Ok self1
    /\ HedgeRegressor.run_loop constant_predict constant_fit self1 tt 0 = Ok s
    /\ HedgeRegressor.fit_predict_one constant_predict constant_fit self1 tt 0
       = Ok (y_pred, self')
    /\ HedgeRegressor.fit_one constant_predict constant_fit self1 tt 0
       = Ok self'
    /\ HedgeRegressor.fit_many constant_predict constant_fit (hedge [1; 0])
         ([(tt, 0)] ++ [(tt, 0)]) = Ok self'
    /\ HedgeRegressor.cur_weights s
       = post_update_weights constant_predict self1 tt 0
    /\ HedgeRegressor.total s = Rsum (HedgeRegressor.cur_weights s)
    /\ (HedgeRegressor.total s <> 0 ->
        Rsum (HedgeRegressor.weights self') = 1)
    /\ (HedgeRegressor.total s = 0 ->
        HedgeRegressor.weights self' = HedgeRegressor.cur_weights s).
Proof.
  apply (hedge_weight_simplex unit R constant_predict constant_fit
           (hedge [1; 0]) [(tt, 0)] tt 0).
  reflexivity.
Defined.

Lemma hedge_monotonic_reweighting_witness :
  exists s wa' wb',
    HedgeRegressor.run_loop constant_predict constant_fit (hedge [0; 1]) tt 0
    = Ok s
    /\ nth_error (HedgeRegressor.cur_weights s) 0 = Some wa'
    /\ nth_error (HedgeRegressor.cur_weights s) 1 = Some wb'
    /\ wa' = 1 * exp (- (1 / 2) * squared 0 (constant_predict 0 tt))
    /\ wb' = 1 * exp (- (1 / 2) * squared 0 (constant_predict 1 tt))
    /\ 1 / 1 < wa' / wb'.
Proof.
  apply (hedge_monotonic_reweighting unit R constant_predict constant_fit
           (hedge [0; 1]) tt 0 0%nat 1%nat 1 1 0 1).
  - reflexivity.
  - reflexivity.
  - reflexivity.
  - reflexivity.
  - reflexivity.
  - lra.
  - lra.
  - unfold hedge. simpl. lra.
  - unfold hedge, squared, constant_predict. simpl. lra.
Defined.

(** With no member the total stays 0 and the normalisation is skipped:
    the total is not always positive. *)
Lemma empty_ensemble_total_is_zero :
  exists s,
    HedgeRegressor.run_loop constant_predict constant_fit (hedge []) tt 0
    = Ok s
    /\ HedgeRegressor.total s = 0
    /\ ~ 0 < HedgeRegressor.total s
    /\ truthy (HedgeRegressor.total s) = false.
Proof.
  eexists. split; [reflexivity|]. simpl.
  split; [reflexivity|]. split; [lra | apply truthy_zero].
Qed.

Lemma hedge_weights_positive_witness :
  exists self s,
    HedgeRegressor.fit_many constant_predict constant_fit
      (HedgeRegressor.__init__ squared [1; 0] None (1 / 2)) [(tt, 0)]
    = Ok self
    /\ positive (HedgeRegressor.weights self)
    /\ HedgeRegressor.run_loop constant_predict constant_fit self tt 0 = Ok s
    /\ positive (HedgeRegressor.cur_weights s)
    /\ 0 < HedgeRegressor.total s
    /\ truthy (HedgeRegressor.total s) = true.
Proof.
  apply (hedge_weights_positive unit R constant_predict constant_fit squared
           [1; 0] None (1 / 2) [(tt, 0)] tt 0).
  discriminate.
Defined.

End Instances.

(** * Further properties *)

Module HedgeMore.
Import Spec HedgeSpec PyFacts LoopFacts HedgeRegressor HedgeFacts HedgeProperties.
Section Facts.
Variable X : Type.
Variable Regressor : Type.
Variable member_predict_one : Regressor -> X -> R.
Variable member_fit_one : Regressor -> X -> R -> Regressor.
Variable Squared : R -> R -> R.

Lemma member_loop_short (self : t Regressor) (x : X) (y : R) :
  models self <> [] ->
  forall (members : list Regressor) (ws pre : list R) (s : loop_state Regressor),
    cur_weights s = pre ++ ws ->
    (length ws < length members)%nat ->
    member_loop member_predict_one member_fit_one self x y (length pre)
      members s = Raise IndexError.
Proof.
  intros Hne.
  induction members as [|r members IH]; intros ws pre s Hw Hlen;
    [simpl in Hlen; lia|].
  cbn [member_loop]. destruct ws as [|w ws].
  - rewrite Hw, app_nil_r. unfold list_get.
    replace (nth_error pre (length pre)) with (@None R); [reflexivity|].
    symmetry. apply nth_error_None. lia.
  - rewrite Hw, list_get_middle. cbn [bind].
    rewrite truediv_nonzero by (apply INR_length_nonzero, Hne).
    cbn [bind]. rewrite list_set_middle.
    replace (S (length pre))
      with (length (pre ++ [w * exp (- learning_rate self
                                    * loss self y (member_predict_one r x))])).
    2:{ rewrite length_app. simpl. lia. }
    apply (IH ws).
    + cbn [cur_weights]. now rewrite <- app_assoc.
    + simpl in Hlen. lia.
Qed.

(** X3. With fewer weights than members, [fit_predict_one] and [fit_one] end
    in [IndexError], at the first member without a weight. *)
Theorem fit_predict_one_missing_weight (self : t Regressor) (x : X) (y : R) :
  (length (weights self) < length (models self))%nat ->
  fit_predict_one member_predict_one member_fit_one self x y = Raise IndexError
  /\ fit_one member_predict_one member_fit_one self x y = Raise IndexError.
Proof.
  intros Hlen.
  assert (Hne : models self <> []).
  { destruct (models self); [simpl in Hlen; lia | discriminate]. }
  assert (H : run_loop member_predict_one member_fit_one self x y
              = Raise IndexError).
  { unfold run_loop.
    apply (member_loop_short self x y Hne (models self) (weights self) []);
      [reflexivity | assumption]. }
  unfold fit_one, fit_predict_one. rewrite H. auto.
Qed.

End Facts.
End HedgeMore.

Module HedgePredict.
Import Spec HedgeSpec PyFacts LoopFacts HedgeRegressor HedgeFacts HedgeProperties.
Section Facts.
Variable X : Type.
Variable Regressor : Type.
Variable member_predict_one : Regressor -> X -> R.
Variable member_fit_one : Regressor -> X -> R -> Regressor.
Variable Squared : R -> R -> R.

Lemma predict_one_sum (self : t Regressor) (x : X) :
  predict_one member_predict_one self x
  = Ok (Rsum (map (fun '(model, weight) => member_predict_one model x * weight)
                  (combine (models self) (weights self)))).
Proof.
  unfold predict_one.
  rewrite (map_ext _ (fun mw => Ok ((fun '(model, weight) =>
                                       member_predict_one model x * weight) mw))).
  2:{ intros [m w]. reflexivity. }
  rewrite <- (map_map (fun '(model, weight) => member_predict_one model x * weight) Ok).
  apply sum_Ok.
Qed.

(** X4. Before the first training call every weight is 1, so [predict_one]
    returns the plain sum of the members' predictions, not their mean. *)
Theorem predict_one_fresh_is_sum (regs : list Regressor)
        (l : option (R -> R -> R)) (lr : R) (x : X) :
  predict_one member_predict_one (__init__ Squared regs l lr) x
  = Ok (Rsum (map (fun r => member_predict_one r x) regs)).
Proof.
  rewrite predict_one_sum. f_equal. simpl.
  induction regs as [|r regs IH]; simpl; [reflexivity|].
  rewrite IH. ring.
Qed.

Lemma weighted_sum_bounds (lo hi : R) (x : X) :
  forall (ms : list Regressor) (ws : list R),
    length ws = length ms ->
    positive ws ->
    (forall r, In r ms -> lo <= member_predict_one r x <= hi) ->
    lo * Rsum ws
    <= Rsum (map (fun '(model, weight) => member_predict_one model x * weight)
                 (combine ms ws))
    <= hi * Rsum ws.
Proof.
  induction ms as [|m ms IH]; intros ws Hlen Hpos Hb.
  - destruct ws; [|discriminate]. simpl. lra.
  - destruct ws as [|w ws]; [discriminate|]. simpl.
    inversion Hpos as [|? ? Hw Hws]; subst.
    destruct (IH ws) as [H1 H2]; [simpl in Hlen; lia | assumption | |].
    { intros r Hr. apply Hb. now right. }
    destruct (Hb m) as [Hlo Hhi]; [now left|].
    unfold Rsum in *. nra.
Qed.

Lemma after_fit_sums_to_one (self : t Regressor) (x : X) (y : R) :
  length (weights self) = length (models self) ->
  positive (weights self) -> models self <> [] ->
  Rsum (weights (after_fit member_predict_one member_fit_one self x y)) = 1.
Proof.
  intros Hlen Hpos Hne. unfold after_fit. cbn [weights].
  apply normalize_sums_to_one.
  assert (0 < Rsum (post_update_weights member_predict_one self x y)); [|lra].
  apply positive_sum; [now apply positive_post|].
  intros E. apply (f_equal (@length R)) in E.
  rewrite post_update_weights_length in E by assumption.
  destruct (models self); [congruence | discriminate].
Qed.

Lemma fit_many_normalised (samples : list (X * R)) :
  forall self : t Regressor,
    length (weights self) = length (models self) ->
    positive (weights self) -> models self <> [] ->
    Rsum (weights self) = 1 ->
    exists self',
      fit_many member_predict_one member_fit_one self samples = Ok self'
      /\ length (weights self') = length (models self')
      /\ positive (weights self')
      /\ Rsum (weights self') = 1
      /\ models self' = map (trained member_fit_one samples) (models self).
Proof.
  induction samples as [|[x y] samples IH]; intros self Hlen Hpos Hne Hsum.
  - exists self. simpl. rewrite map_id. auto.
  - simpl. rewrite fit_one_spec by assumption. simpl.
    destruct (after_fit_lengths X Regressor member_predict_one member_fit_one
                self x y Hlen) as [H1 H2].
    destruct (IH (after_fit member_predict_one member_fit_one self x y) H1)
      as (self' & Hfit & Hl & Hp & Hs & Hm).
    + unfold after_fit. cbn [weights].
      apply positive_normalize, positive_post, Hpos.
    + intros E. apply (f_equal (@length Regressor)) in E.
      rewrite H2 in E. destruct (models self); [congruence | discriminate].
    + now apply after_fit_sums_to_one.
    + exists self'. repeat split; auto.
      rewrite Hm. simpl. now rewrite map_map.
Qed.

(** X5. Once a non-empty ensemble has been trained on at least one sample,
    its weights are positive and sum to 1, so [predict_one] lies between
    any two bounds that hold for the predictions of all its (trained)
    members. *)
Theorem predict_one_within_member_range (regs : list Regressor)
        (l : option (R -> R -> R)) (lr : R) (x0 : X) (y0 : R)
        (samples : list (X * R)) (x : X) (lo hi : R) :
  regs <> [] ->
  (forall r, In r regs ->
             lo <= member_predict_one
                     (trained member_fit_one ((x0, y0) :: samples) r) x
                <= hi) ->
  exists self' p,
    fit_many member_predict_one member_fit_one (__init__ Squared regs l lr)
      ((x0, y0) :: samples) = Ok self'
    /\ positive (weights self')
    /\ Rsum (weights self') = 1
    /\ predict_one member_predict_one self' x = Ok p
    /\ lo <= p <= hi.
Proof.
  intros Hne Hb.
  set (h0 := __init__ Squared regs l lr).
  assert (Hlen0 : length (weights h0) = length (models h0))
    by apply init_lengths.
  assert (Hpos0 : positive (weights h0)) by apply positive_init.
  cbn [fit_many]. rewrite fit_one_spec by assumption. cbn [bind].
  set (h1 := after_fit member_predict_one member_fit_one h0 x0 y0).
  destruct (after_fit_lengths X Regressor member_predict_one member_fit_one
              h0 x0 y0 Hlen0) as [Hlen1 Hm1].
  fold h1 in Hlen1, Hm1.
  destruct (fit_many_normalised samples h1 Hlen1)
    as (self' & Hfit & Hl & Hp & Hs & Hm).
  - unfold h1, after_fit. cbn [weights].
    apply positive_normalize, positive_post, Hpos0.
  - intros E. apply (f_equal (@length Regressor)) in E.
    rewrite Hm1 in E. simpl in E. destruct regs; [congruence | discriminate].
  - apply after_fit_sums_to_one; auto.
  - exists self'. eexists. split; [exact Hfit|]. split; [exact Hp|].
    split; [exact Hs|]. split; [apply predict_one_sum|].
    destruct (weighted_sum_bounds lo hi x (models self') (weights self'))
      as [H1 H2]; [assumption | assumption | | rewrite Hs in *; lra].
    intros r Hr. rewrite Hm in Hr. apply in_map_iff in Hr as (r0 & <- & Hr0).
    unfold h1 in Hr0. simpl in Hr0. apply in_map_iff in Hr0 as (r1 & <- & Hr1).
    apply (Hb r1 Hr1).
Qed.

Lemma post_equal_losses (self : t Regressor) (x : X) (y c : R) :
  length (weights self) = length (models self) ->
  (forall r, In r (models self) ->
             loss self y (member_predict_one r x) = c) ->
  post_update_weights member_predict_one self x y
  = map (fun w => w * exp (- learning_rate self * c)) (weights self).
Proof.
  unfold post_update_weights, update_factor.
  generalize (models self). induction (weights self) as [|w ws IH];
    intros ms Hlen Hc; [reflexivity|].
  destruct ms as [|m ms]; [discriminate|]. simpl.
  rewrite (Hc m) by now left. f_equal.
  apply IH; [simpl in Hlen; lia | intros; apply Hc; now right].
Qed.

Lemma Rsum_scal_r (c : R) (ws : list R) :
  Rsum (map (fun w => w * c) ws) = Rsum ws * c.
Proof. induction ws as [|w ws IH]; simpl; [ring | rewrite IH; ring]. Qed.

(** X6. A sample on which every member incurs the same loss leaves weights
    that sum to 1 exactly as they were. *)
Theorem equal_losses_keep_weights (self : t Regressor) (x : X) (y c : R) :
  length (weights self) = length (models self) ->
  Rsum (weights self) = 1 ->
  (forall r, In r (models self) ->
             loss self y (member_predict_one r x) = c) ->
  exists p self',
    fit_predict_one member_predict_one member_fit_one self x y = Ok (p, self')
    /\ weights self' = weights self.
Proof.
  intros Hlen Hsum Hc. eexists. eexists.
  split; [apply fit_predict_one_spec; assumption|].
  unfold after_fit. cbn [weights].
  rewrite (post_equal_losses self x y c) by assumption.
  set (e := exp (- learning_rate self * c)).
  assert (He : 0 < e) by apply exp_pos.
  rewrite Rsum_scal_r, Hsum. unfold normalize.
  rewrite truthy_nonzero by lra. rewrite map_map.
  rewrite <- (map_id (weights self)) at 2. apply map_ext.
  intros w. field. lra.
Qed.

Lemma post_with_weights_scaled (self : t Regressor) (x : X) (y c : R) :
  post_update_weights member_predict_one
    (with_weights self (map (fun w => c * w) (weights self))) x y
  = map (fun w => c * w) (post_update_weights member_predict_one self x y).
Proof.
  unfold post_update_weights, update_factor, with_weights.
  cbn [weights models loss learning_rate].
  generalize (models self). induction (weights self) as [|w ws IH];
    intros ms; [reflexivity|].
  destruct ms as [|m ms]; [reflexivity|]. simpl. rewrite IH. f_equal. ring.
Qed.

(** X7. Only the proportions of the weights matter: multiplying every weight
    by the same non-zero number before a call changes neither the weights
    nor the members it leaves, as long as the total is not zero. *)
Theorem weights_scale_is_irrelevant (self : t Regressor) (x : X) (y c : R) :
  length (weights self) = length (models self) ->
  c <> 0 ->
  Rsum (post_update_weights member_predict_one self x y) <> 0 ->
  exists p q self',
    fit_predict_one member_predict_one member_fit_one self x y = Ok (p, self')
    /\ fit_predict_one member_predict_one member_fit_one
         (with_weights self (map (fun w => c * w) (weights self))) x y
       = Ok (q, self').
Proof.
  intros Hlen Hc Ht. eexists. eexists. eexists.
  split; [apply fit_predict_one_spec; assumption|].
  rewrite fit_predict_one_spec
    by (unfold with_weights; cbn [weights models]; now rewrite length_map).
  f_equal. f_equal. unfold after_fit.
  rewrite post_with_weights_scaled.
  cbn [with_weights weights models loss learning_rate].
  f_equal.
  set (ps := post_update_weights member_predict_one self x y) in *.
  assert (Hs : Rsum (map (fun w => c * w) ps) = c * Rsum ps).
  { clear. induction ps as [|w ps IH]; simpl; [ring | rewrite IH; ring]. }
  rewrite Hs. unfold normalize.
  rewrite !truthy_nonzero by (try apply Rmult_integral_contrapositive; auto).
  rewrite map_map. apply map_ext. intros w. field. auto.
Qed.

End Facts.
End HedgePredict.

Module HOFMInteractions.
Import Spec PyFacts LoopFacts HOFM HOFMFacts HOFMPairs.
Section Facts.
Variable Key : Type.
Variable Key_eq_dec : forall a b : Key, {a = b} + {a <> b}.
Variable Opt : Type.

(** *** Lookups *)

Lemma getitem_missing (x : dict Key) (j : Key) :
  ~ In j (keys x) -> getitem Key_eq_dec x j = Raise KeyError.
Proof.
  induction x as [|[k a] x IH]; simpl; intros H; [reflexivity|].
  destruct (Key_eq_dec k j) as [E|E]; [tauto|]. apply IH. tauto.
Qed.

Lemma getitem_present (x : dict Key) (j : Key) (a : R) :
  NoDup (keys x) -> In (j, a) x -> getitem Key_eq_dec x j = Ok a.
Proof.
  induction x as [|[k b] x IH]; simpl; intros Hnd Hin; [destruct Hin|].
  inversion Hnd as [|? ? Hnotin Hnd']; subst.
  destruct (Key_eq_dec k j) as [E|E].
  - destruct Hin as [Hin|Hin]; [congruence|].
    exfalso. apply Hnotin. subst k.
    change j with (fst (j, a)). now apply in_map.
  - destruct Hin as [Hin|Hin]; [congruence|]. now apply IH.
Qed.

Lemma value_Permutation (x x' : dict Key) (j : Key) :
  NoDup (keys x) -> Permutation x x' ->
  value Key_eq_dec x j = value Key_eq_dec x' j.
Proof.
  intros Hnd Hp.
  assert (Hnd' : NoDup (keys x')).
  { apply (Permutation_NoDup (l := keys x)); [|assumption].
    unfold keys. now apply Permutation_map. }
  unfold value.
  destruct (in_dec Key_eq_dec j (keys x)) as [Hin|Hin].
  - apply in_map_iff in Hin as ([k a] & Hk & Hin). simpl in Hk. subst k.
    rewrite (getitem_present x j a) by assumption.
    rewrite (getitem_present x' j a); [reflexivity | assumption|].
    now apply (Permutation_in _ Hp).
  - rewrite getitem_missing by assumption.
    rewrite getitem_missing; [reflexivity|].
    intros Hin'. apply Hin.
    apply (Permutation_in (l := keys x')); [|assumption].
    unfold keys. apply Permutation_map. now apply Permutation_sym.
Qed.

(** *** Errors of [_calculate_interaction] *)

Lemma reduce_from_missing (x : dict Key) (C : list Key) :
  (exists j, In j C /\ ~ In j (keys x)) ->
  forall acc,
    reduce_from acc (map (getitem Key_eq_dec x) C) = Raise KeyError.
Proof.
  induction C as [|k C IH]; intros (j & Hj & Hnot) acc; [destruct Hj|].
  simpl. destruct (in_dec Key_eq_dec k (keys x)) as [Hin|Hin].
  - rewrite getitem_value by assumption. simpl. apply IH.
    exists j. split; [|assumption].
    destruct Hj as [->|Hj]; [contradiction | assumption].
  - now rewrite getitem_missing.
Qed.

Lemma reduce_mul_missing (x : dict Key) (C : list Key) :
  (exists j, In j C /\ ~ In j (keys x)) ->
  reduce_mul (map (getitem Key_eq_dec x) C) = Raise KeyError.
Proof.
  intros (j & Hj & Hnot). destruct C as [|k C]; [destruct Hj|].
  simpl. destruct (in_dec Key_eq_dec k (keys x)) as [Hin|Hin].
  - rewrite getitem_value by assumption. simpl. apply reduce_from_missing.
    exists j. split; [|assumption].
    destruct Hj as [->|Hj]; [contradiction | assumption].
  - now rewrite getitem_missing.
Qed.

(** X8. [_calculate_interaction] on an empty combination ends in [TypeError]
    (the [reduce] of an empty sequence), and on a combination naming a
    key that [x] does not have in [KeyError]. *)
Theorem calculate_interaction_errors (self : HOFM.t Key Opt) (x : dict Key)
        (l : nat) :
  _calculate_interaction Key_eq_dec self x l [] = Raise TypeError
  /\ (forall C j,
         In j C -> ~ In j (keys x) ->
         _calculate_interaction Key_eq_dec self x l C = Raise KeyError).
Proof.
  split; [reflexivity|]. intros C j Hj Hnot.
  unfold _calculate_interaction.
  rewrite reduce_mul_missing by (exists j; auto). reflexivity.
Qed.

(** *** A feature of value zero *)

Lemma Rprod_zero {A : Type} (f : A -> R) (C : list A) (k : A) :
  In k C -> f k = 0 -> Rprod (map f C) = 0.
Proof.
  induction C as [|a C IH]; intros Hin Hz; [destruct Hin|]. simpl.
  destruct Hin as [->|Hin]; [rewrite Hz; ring | rewrite IH by assumption; ring].
Qed.

Lemma combinations_skip {A : Type} (k : A) (ks2 : list A) :
  forall (ks1 : list A) (g : list A -> R) (r : nat),
    (forall C, In k C -> g C = 0) ->
    Rsum (map g (combinations (ks1 ++ k :: ks2) r))
    = Rsum (map g (combinations (ks1 ++ ks2) r)).
Proof.
  induction ks1 as [|a ks1 IH]; intros g r Hg.
  - simpl app. destruct r as [|r].
    + now rewrite !combinations_0.
    + simpl combinations. rewrite map_app, Rsum_app, map_map.
      rewrite Rsum_zero; [ring|]. intros C _. apply Hg. now left.
  - destruct r as [|r]; [reflexivity|].
    simpl. rewrite !map_app, !Rsum_app, !map_map.
    rewrite (IH (fun C => g (a :: C))), (IH g); auto.
    intros C HC. apply Hg. now right.
Qed.

Lemma value_app_skip (x1 x2 : dict Key) (k j : Key) (a : R) :
  j <> k ->
  value Key_eq_dec (x1 ++ (k, a) :: x2) j = value Key_eq_dec (x1 ++ x2) j.
Proof.
  intros Hne. unfold value. induction x1 as [|[k1 a1] x1 IH]; simpl.
  - destruct (Key_eq_dec k j); [congruence | reflexivity].
  - destruct (Key_eq_dec k1 j); [reflexivity | exact IH].
Qed.

Lemma value_app_zero (x1 x2 : dict Key) (k : Key) :
  ~ In k (keys x1) -> value Key_eq_dec (x1 ++ (k, 0) :: x2) k = 0.
Proof.
  intros Hnot. unfold value. induction x1 as [|[k1 a1] x1 IH]; simpl.
  - destruct (Key_eq_dec k k); [reflexivity | congruence].
  - simpl in Hnot. destruct (Key_eq_dec k1 k); [tauto|]. apply IH. tauto.
Qed.

Lemma combination_term_ext (v : Key -> nat -> nat -> R) (nf : Z)
      (x x' : dict Key) (l : nat) (C : list Key) :
  (forall j, In j C -> value Key_eq_dec x j = value Key_eq_dec x' j) ->
  combination_term Key_eq_dec v nf x l C
  = combination_term Key_eq_dec v nf x' l C.
Proof.
  intros H. unfold combination_term. f_equal. f_equal. now apply map_ext_in.
Qed.

(** Over a fixed table a feature of value 0 adds nothing. *)
Lemma interaction_sum_zero_feature (v : Key -> nat -> nat -> R)
      (nf degree : Z) (x1 x2 : dict Key) (k : Key) :
  ~ In k (keys x1) -> ~ In k (keys x2) ->
  interaction_sum Key_eq_dec v nf degree (x1 ++ (k, 0) :: x2)
  = interaction_sum Key_eq_dec v nf degree (x1 ++ x2).
Proof.
  intros H1 H2.
  unfold interaction_sum. apply Rsum_map_ext_in. intros l _.
  unfold order_term. rewrite <- !combinations_subsets.
  unfold keys. rewrite !map_app. simpl map.
  rewrite combinations_skip.
  - apply Rsum_map_ext_in. intros C HC.
    apply combination_term_ext. intros j Hj. apply value_app_skip.
    intros ->. apply combinations_incl in HC. apply HC in Hj.
    apply in_app_or in Hj. tauto.
  - intros C HC. unfold combination_term.
    rewrite (Rprod_zero _ C k HC); [ring|].
    now apply value_app_zero.
Qed.

(** *** The order of the keys *)

Lemma Rprod_Permutation (C C' : list R) :
  Permutation C C' -> Rprod C = Rprod C'.
Proof.
  induction 1; simpl; [reflexivity | now f_equal | ring | congruence].
Qed.

Lemma combination_term_Permutation (v : Key -> nat -> nat -> R) (nf : Z)
      (x : dict Key) (l : nat) (C C' : list Key) :
  Permutation C C' ->
  combination_term Key_eq_dec v nf x l C
  = combination_term Key_eq_dec v nf x l C'.
Proof.
  intros Hp. unfold combination_term. f_equal.
  - apply Rprod_Permutation. now apply Permutation_map.
  - apply Rsum_map_ext_in. intros f _.
    apply Rprod_Permutation. now apply Permutation_map.
Qed.

Lemma combinations_Permutation {A : Type} (ks ks' : list A) :
  Permutation ks ks' ->
  forall (g : list A -> R) (r : nat),
    (forall C C', Permutation C C' -> g C = g C') ->
    Rsum (map g (combinations ks r)) = Rsum (map g (combinations ks' r)).
Proof.
  induction 1 as [|a ks ks' Hp IH|a b ks|ks1 ks2 ks3 Hp1 IH1 Hp2 IH2];
    intros g r Hg.
  - reflexivity.
  - destruct r as [|r]; [reflexivity|]. simpl.
    rewrite !map_app, !Rsum_app, !map_map.
    rewrite (IH (fun C => g (a :: C))), (IH g); auto.
  - destruct r as [|[|r]]; [reflexivity| |].
    + simpl. rewrite !combinations_0. simpl. ring.
    + simpl. repeat (rewrite ?map_app, ?Rsum_app, ?map_map).
      rewrite (Rsum_map_ext_in (fun C => g (b :: a :: C))
                               (fun C => g (a :: b :: C))).
      * ring.
      * intros C _. apply Hg. constructor.
  - rewrite IH1 by assumption. now apply IH2.
Qed.

(** Over a fixed table the order of the features does not matter. *)
Lemma interaction_sum_key_order (v : Key -> nat -> nat -> R)
      (nf degree : Z) (x x' : dict Key) :
  NoDup (keys x) -> Permutation x x' ->
  interaction_sum Key_eq_dec v nf degree x
  = interaction_sum Key_eq_dec v nf degree x'.
Proof.
  intros Hnd Hp.
  unfold interaction_sum. apply Rsum_map_ext_in. intros l _.
  unfold order_term. rewrite <- !combinations_subsets.
  rewrite (combinations_Permutation (keys x) (keys x')).
  - apply Rsum_map_ext_in. intros C _. apply combination_term_ext.
    intros j _. now apply value_Permutation.
  - unfold keys. now apply Permutation_map.
  - intros C C'. apply combination_term_Permutation.
Qed.

(** *** A degree above the number of features *)

Lemma Rsum_seq_cut (f : nat -> R) (n : nat) :
  (forall l, (n < l)%nat -> f l = 0) ->
  forall (m a : nat),
    (n + 1 <= a + m)%nat ->
    Rsum (map f (seq a m)) = Rsum (map f (seq a (n + 1 - a))).
Proof.
  intros Hf. induction m as [|m IH]; intros a Hm.
  - replace (n + 1 - a)%nat with 0%nat by lia. reflexivity.
  - destruct (le_lt_dec a n) as [Hle|Hlt].
    + replace (n + 1 - a)%nat with (S (n + 1 - S a)) by lia.
      simpl. f_equal. apply IH. lia.
    + replace (n + 1 - a)%nat with 0%nat by lia. simpl seq at 2.
      apply Rsum_zero. intros l Hl. apply Hf. apply in_seq in Hl. lia.
Qed.

(** X11. Raising [degree] beyond the number of features of the instance does
    not change [_calculate_interactions]. *)
Theorem calculate_interactions_degree_above_keys (self self' : HOFM.t Key Opt)
        (x : dict Key) :
  base self = base self' ->
  (Z.of_nat (length (keys x)) <= degree self)%Z ->
  (Z.of_nat (length (keys x)) <= degree self')%Z ->
  _calculate_interactions Key_eq_dec self x
  = _calculate_interactions Key_eq_dec self' x.
Proof.
  intros Hb Hd Hd'. rewrite !calculate_interactions_sum. f_equal.
  unfold interaction_sum, range. rewrite <- Hb.
  set (f := order_term Key_eq_dec (latents (base self)) (n_factors (base self)) x).
  assert (Hf : forall l, (length (keys x) < l)%nat -> f l = 0).
  { intros l Hl. now apply order_term_short. }
  rewrite (Rsum_seq_cut f (length (keys x)) Hf _ 2) by lia.
  rewrite (Rsum_seq_cut f (length (keys x)) Hf (Z.to_nat (degree self' + 1 - Z.of_nat 2)) 2) by lia.
  reflexivity.
Qed.

End Facts.
End HOFMInteractions.

Module HOFMGradients.
Import Spec GradientSpec PyFacts LoopFacts HOFM HOFMFacts HOFMUpdate.
Section Facts.
Variable Key : Type.
Variable Key_eq_dec : forall a b : Key, {a = b} + {a <> b}.
Variable Opt : Type.

(** A loop whose every iteration adds to the table adds the sum. *)
Lemma for_each_additive {A : Type} (items : list A)
      (body : A -> gradient_table Key -> result (gradient_table Key))
      (c : A -> Key -> nat -> nat -> R) (G G' : gradient_table Key) :
  for_each items body G = Ok G' ->
  (forall a G G',
      In a items -> body a G = Ok G' ->
      forall j l f, G' j l f = G j l f + c a j l f) ->
  forall j l f,
    G' j l f = G j l f + Rsum (map (fun a => c a j l f) items).
Proof.
  revert G. induction items as [|a items IH]; intros G Hrun Hbody j l f.
  - simpl in Hrun. inversion Hrun; subst. simpl. ring.
  - simpl in Hrun. destruct (body a G) as [G1|e] eqn:Ha; [|discriminate].
    simpl in Hrun.
    rewrite (IH G1 Hrun (fun a' G0 G0' Hin => Hbody a' G0 G0' (or_intror Hin))
                j l f).
    rewrite (Hbody a G G1 (or_introl eq_refl) Ha j l f). simpl. ring.
Qed.

Lemma truediv_Ok (a b d : R) : truediv a b = Ok d -> d = a / b.
Proof.
  unfold truediv. destruct (Req_dec_T b 0); [discriminate|].
  now intros [= <-].
Qed.

Lemma Rsum_select {A : Type} (dec : forall a b : A, {a = b} + {a <> b})
      (h : A -> R) (a0 : A) (items : list A) :
  NoDup items ->
  Rsum (map (fun a => if dec a0 a then h a else 0) items)
  = if in_dec dec a0 items then h a0 else 0.
Proof.
  induction 1 as [|a items Hnotin Hnd IH]; [reflexivity|]. simpl.
  rewrite IH. destruct (dec a0 a) as [E|E].
  - subst a. destruct (dec a0 a0); [|congruence].
    destruct (in_dec dec a0 items); [contradiction | ring].
  - destruct (dec a a0); [congruence|].
    destruct (in_dec dec a0 items); ring.
Qed.

(** The innermost loop (lines 100-101). *)
Lemma keys_loop (v : latent_table Key) (l f : nat) (a : R) (C : list Key)
      (G G' : gradient_table Key) :
  for_each C
    (fun j gradients =>
       d <- truediv a (v j l f) ;;
       Ok (table_set Key_eq_dec gradients j l f (gradients j l f + d)))
    G = Ok G' ->
  forall j' l' f',
    G' j' l' f'
    = G j' l' f'
      + (if Nat.eq_dec l' l then
           if Nat.eq_dec f' f then
             Rsum (map (fun k => if Key_eq_dec k j' then a / v k l f else 0) C)
           else 0
         else 0).
Proof.
  intros Hrun j' l' f'.
  rewrite (for_each_additive C _
                (fun k j' l' f' =>
                   if Nat.eq_dec l' l then
                     if Nat.eq_dec f' f then
                       if Key_eq_dec k j' then a / v k l f else 0
                     else 0
                   else 0)
             G G' Hrun).
  - f_equal. destruct (Nat.eq_dec l' l); [|now apply Rsum_zero].
    destruct (Nat.eq_dec f' f); [reflexivity | now apply Rsum_zero].
  - clear. intros k G G' _ Hbody j' l' f'.
    destruct (truediv a (v k l f)) as [d|e] eqn:Hd; [|discriminate].
    simpl in Hbody. inversion Hbody; subst G'. apply truediv_Ok in Hd.
    unfold table_set.
    destruct (Key_eq_dec j' k) as [->|Hk].
    + destruct (Nat.eq_dec l' l) as [->|Hl]; [|ring].
      destruct (Nat.eq_dec f' f) as [->|Hf]; [|ring].
      destruct (Key_eq_dec k k); [|congruence]. now rewrite Hd.
    + destruct (Nat.eq_dec l' l); [|ring].
      destruct (Nat.eq_dec f' f); [|ring].
      destruct (Key_eq_dec k j'); [congruence | ring].
Qed.

(** One combination (lines 95-101). *)
Lemma combination_loop (v : latent_table Key) (x : dict Key) (nf : Z)
      (l : nat) (C : list Key) (G G' : gradient_table Key) :
  C <> [] -> incl C (keys x) ->
  accumulate_combination Key_eq_dec v x nf l C G = Ok G' ->
  forall j' l' f',
    G' j' l' f'
    = G j' l' f'
      + (if Nat.eq_dec l' l then
           Rsum (map (fun f =>
                        if Nat.eq_dec f' f then
                          combination_gradient Key_eq_dec v x l f j' C
                        else 0)
                     (range 0 nf))
         else 0).
Proof.
  intros Hne Hin Hrun j' l' f'. unfold accumulate_combination in Hrun.
  rewrite feature_product_Ok in Hrun by assumption. simpl in Hrun.
  rewrite (for_each_additive (range 0 nf) _
                (fun f j' l' f' =>
                   if Nat.eq_dec l' l then
                     if Nat.eq_dec f' f then
                       combination_gradient Key_eq_dec v x l f j' C
                     else 0
                   else 0)
             G G' Hrun).
  - f_equal. destruct (Nat.eq_dec l' l); [reflexivity | now apply Rsum_zero].
  - clear - Hne. intros f G G' _ Hbody j' l' f'.
    rewrite latent_product_Ok in Hbody by assumption. simpl in Hbody.
    rewrite (keys_loop v l f _ C G G' Hbody j' l' f').
    reflexivity.
Qed.

Lemma accumulate_gradients_sum (self : HOFM.t Key Opt) (x : dict Key)
      (G : gradient_table Key) :
  accumulate_gradients Key_eq_dec self x = Ok G ->
  forall j l f,
    G j l f
    = Rsum (map (fun l0 =>
                   if Nat.eq_dec l l0 then
                     Rsum (map (fun C =>
                                  Rsum (map (fun f0 =>
                                               if Nat.eq_dec f f0 then
                                                 combination_gradient Key_eq_dec
                                                   (latents (base self)) x l0 f0 j C
                                               else 0)
                                            (range 0 (n_factors (base self)))))
                               (combinations (keys x) l0))
                   else 0)
                (range 2 (degree self + 1))).
Proof.
  intros Hrun j l f. unfold accumulate_gradients in Hrun.
  rewrite (for_each_additive (range 2 (degree self + 1)) _
                (fun l0 j l f =>
                   if Nat.eq_dec l l0 then
                     Rsum (map (fun C =>
                                  Rsum (map (fun f0 =>
                                               if Nat.eq_dec f f0 then
                                                 combination_gradient Key_eq_dec
                                                   (latents (base self)) x l0 f0 j C
                                               else 0)
                                            (range 0 (n_factors (base self)))))
                               (combinations (keys x) l0))
                   else 0)
             no_gradients G Hrun).
  - unfold no_gradients. ring.
  - clear. intros l0 G G' Hl0 Hbody j l f.
    rewrite (for_each_additive (combinations (keys x) l0) _
                  (fun C j l f =>
                     if Nat.eq_dec l l0 then
                       Rsum (map (fun f0 =>
                                    if Nat.eq_dec f f0 then
                                      combination_gradient Key_eq_dec
                                        (latents (base self)) x l0 f0 j C
                                    else 0)
                                 (range 0 (n_factors (base self))))
                     else 0)
               G G' Hbody).
    + f_equal. destruct (Nat.eq_dec l l0); [reflexivity | now apply Rsum_zero].
    + intros C G0 G0' HC HbodyC j' l' f'.
      apply (combination_loop _ x _ l0 C G0 G0'); auto.
      * apply (combination_nonempty _ (keys x) l0); [|assumption].
        apply range_ge in Hl0. lia.
      * now apply (combinations_incl _ l0).
Qed.

Lemma accumulate_gradients_entries (self : HOFM.t Key Opt)
      (x : dict Key) (G : gradient_table Key) :
  accumulate_gradients Key_eq_dec self x = Ok G ->
  forall j l f,
    G j l f
    = if in_dec Nat.eq_dec l (range 2 (degree self + 1)) then
        if in_dec Nat.eq_dec f (range 0 (n_factors (base self))) then
          gradient_sum Key_eq_dec (latents (base self)) x l f j
        else 0
      else 0.
Proof.
  intros Hrun j l f.
  rewrite (accumulate_gradients_sum self x G Hrun j l f).
  rewrite (Rsum_select Nat.eq_dec _ l) by apply seq_NoDup.
  destruct (in_dec Nat.eq_dec l (range 2 (degree self + 1))); [|reflexivity].
  assert (Hinner :
    forall C,
      Rsum (map (fun f0 =>
                   if Nat.eq_dec f f0 then
                     combination_gradient Key_eq_dec (latents (base self)) x l f0 j C
                   else 0)
                (range 0 (n_factors (base self))))
      = if in_dec Nat.eq_dec f (range 0 (n_factors (base self))) then
          combination_gradient Key_eq_dec (latents (base self)) x l f j C
        else 0).
  { intros C. apply (Rsum_select Nat.eq_dec). apply seq_NoDup. }
  destruct (in_dec Nat.eq_dec f (range 0 (n_factors (base self)))) as [Hf|Hf].
  - unfold gradient_sum. apply Rsum_map_ext_in. intros C _. rewrite Hinner.
    destruct (in_dec Nat.eq_dec f (range 0 (n_factors (base self))));
      [reflexivity | contradiction].
  - apply Rsum_zero. intros C _. rewrite Hinner.
    destruct (in_dec Nat.eq_dec f (range 0 (n_factors (base self))));
      [contradiction | reflexivity].
Qed.

(** X12. When the accumulation of lines 92-101 completes, the gradient of key
    [j] at an order [l] in [range(2, degree + 1)] and a factor [f] in
    [range(n_factors)] is the sum over the combinations of [l] keys of
    what each adds for [j]; every other entry of the table is 0. *)
Theorem accumulate_gradients_closed_form (self : HOFM.t Key Opt)
        (x : dict Key) (G : gradient_table Key) :
  accumulate_gradients Key_eq_dec self x = Ok G ->
  forall j l f,
    (In l (range 2 (degree self + 1)) ->
     In f (range 0 (n_factors (base self))) ->
     G j l f = gradient_sum Key_eq_dec (latents (base self)) x l f j)
    /\ (~ In l (range 2 (degree self + 1)) -> G j l f = 0)
    /\ (~ In f (range 0 (n_factors (base self))) -> G j l f = 0).
Proof.
  intros Hrun j l f.
  rewrite (accumulate_gradients_entries self x G Hrun j l f).
  destruct (in_dec Nat.eq_dec l (range 2 (degree self + 1)));
    destruct (in_dec Nat.eq_dec f (range 0 (n_factors (base self))));
    repeat split; intros; try reflexivity; contradiction.
Qed.

(** *** The gradient as the product over the other keys *)

Lemma combinations_NoDup {A : Type} (pool : list A) :
  NoDup pool -> forall r C, In C (combinations pool r) -> NoDup C.
Proof.
  induction 1 as [|a pool Hnotin Hnd IH]; intros r C HC.
  - destruct r; simpl in HC; [destruct HC as [<-|[]]; constructor | destruct HC].
  - destruct r as [|r]; simpl in HC.
    + destruct HC as [<-|[]]. constructor.
    + apply in_app_or in HC as [HC|HC].
      * apply in_map_iff in HC as (C' & <- & HC'). constructor.
        -- intros Hin. apply Hnotin.
           now apply (combinations_incl pool r C' HC').
        -- now apply (IH r).
      * now apply (IH (S r)).
Qed.

Lemma Rsum_once (j : Key) (h : Key -> R) (C : list Key) :
  NoDup C ->
  Rsum (map (fun k => if Key_eq_dec k j then h k else 0) C)
  = if in_dec Key_eq_dec j C then h j else 0.
Proof.
  induction 1 as [|a C Hnotin Hnd IH]; [reflexivity|]. simpl.
  rewrite IH. destruct (Key_eq_dec a j) as [->|E].
  - destruct (Key_eq_dec j j); [|congruence].
    destruct (in_dec Key_eq_dec j C); [contradiction | ring].
  - destruct (Key_eq_dec a j); [congruence|].
    destruct (in_dec Key_eq_dec j C); ring.
Qed.

Lemma Rprod_without (g : Key -> R) (j : Key) (C : list Key) :
  NoDup C -> In j C -> g j <> 0 ->
  Rprod (map g C) / g j = Rprod (map g (remove Key_eq_dec j C)).
Proof.
  induction 1 as [|a C Hnotin Hnd IH]; intros Hin Hnz; [destruct Hin|].
  simpl. destruct (Key_eq_dec j a) as [->|E].
  - rewrite notin_remove by assumption. field. assumption.
  - destruct Hin as [->|Hin]; [congruence|]. simpl.
    rewrite <- IH by assumption. field. assumption.
Qed.

(** X13. With distinct keys and no zero among the latent components read, the
    accumulation completes and the gradient of [j] at order [l] and
    factor [f] is the sum, over the combinations of [l] keys containing
    [j], of the product of the feature values times the product of the
    latent components of the other keys. *)
Theorem accumulate_gradients_product_of_others (self : HOFM.t Key Opt)
        (x : dict Key) :
  NoDup (keys x) ->
  (forall j l f,
      In j (keys x) -> In l (range 2 (degree self + 1)) ->
      In f (range 0 (n_factors (base self))) ->
      latents (base self) j l f <> 0) ->
  exists G,
    accumulate_gradients Key_eq_dec self x = Ok G
    /\ forall j l f,
        In l (range 2 (degree self + 1)) ->
        In f (range 0 (n_factors (base self))) ->
        G j l f
        = Rsum (map (fun C =>
                       if in_dec Key_eq_dec j C then
                         Rprod (map (value Key_eq_dec x) C)
                         * Rprod (map (fun k => latents (base self) k l f)
                                      (remove Key_eq_dec j C))
                       else 0)
                    (combinations (keys x) l)).
Proof.
  intros Hnd Hnz.
  destruct (accumulate_gradients_returns Key Key_eq_dec Opt self x Hnz)
    as [G HG].
  exists G. split; [exact HG|]. intros j l f Hl Hf.
  rewrite (accumulate_gradients_entries self x G HG j l f).
  destruct (in_dec Nat.eq_dec l (range 2 (degree self + 1))); [|contradiction].
  destruct (in_dec Nat.eq_dec f (range 0 (n_factors (base self))));
    [|contradiction].
  unfold gradient_sum. apply Rsum_map_ext_in. intros C HC.
  unfold combination_gradient.
  assert (HndC : NoDup C) by now apply (combinations_NoDup (keys x) Hnd l).
  rewrite (Rsum_once j
             (fun k => Rprod (map (value Key_eq_dec x) C)
                       * Rprod (map (fun i => latents (base self) i l f) C)
                       / latents (base self) k l f) C HndC).
  destruct (in_dec Key_eq_dec j C) as [Hin|Hin]; [|reflexivity].
  assert (Hj : latents (base self) j l f <> 0).
  { apply Hnz; auto. now apply (combinations_incl _ l C HC). }
  rewrite <- (Rprod_without (fun k => latents (base self) k l f) j C)
    by assumption.
  unfold Rdiv. ring.
Qed.

End Facts.
End HOFMGradients.

Module HOFMUpdates.
Import Spec UpdateSpec PyFacts LoopFacts HOFM HOFMFacts HOFMUpdate
       HOFMSnapshot HOFMInteractions.
Section Facts.
Variable Key : Type.
Variable Key_eq_dec : forall a b : Key, {a = b} + {a <> b}.
Variable Opt : Type.
Variable update_after_pred : Opt -> (nat -> R) -> list R -> Opt * (nat -> R).
Variable sign : R -> R.

(** *** What [_update_latents] leaves alone *)

Lemma list_prod_NoDup {A B : Type} (l : list A) (l' : list B) :
  NoDup l -> NoDup l' -> NoDup (list_prod l l').
Proof.
  intros Hl Hl'. induction Hl as [|a l Hnotin Hnd IH]; simpl; [constructor|].
  apply NoDup_app.
  - clear - Hl'. induction Hl' as [|b l' Hn Hd IH]; simpl; constructor; auto.
    intros Hin. apply in_map_iff in Hin as (b' & E & Hb').
    inversion E; subst. contradiction.
  - assumption.
  - intros [a' b'] Hin Hin'.
    apply in_map_iff in Hin as (b'' & E & _). inversion E; subst.
    apply in_prod_iff in Hin' as [Hin' _]. contradiction.
Qed.

Lemma update_one_frame (nf : Z) (g_loss l1 l2 : R) (G : gradient_table Key)
      (j : Key) (l : nat) (s : latent_table Key * Opt * list (call Key)) :
  (forall j' l' f,
      j' <> j \/ l' <> l ->
      fst (fst (update_one Key_eq_dec update_after_pred sign nf g_loss l1 l2
                  G j s l)) j' l' f
      = fst (fst s) j' l' f)
  /\ map call_pair
         (snd (update_one Key_eq_dec update_after_pred sign nf g_loss l1 l2
                 G j s l))
     = map call_pair (snd s) ++ [(j, l)].
Proof.
  destruct s as [[v opt] calls]. unfold update_one.
  destruct (update_after_pred opt (v j l)
              (penalised sign nf g_loss l1 l2 G v j l)) as [opt' w'].
  simpl. split.
  - intros j' l' f [H|H].
    + now apply set_latent_vector_other_key.
    + now apply set_latent_vector_other_order.
  - now rewrite map_app.
Qed.

Lemma orders_frame (nf : Z) (g_loss l1 l2 : R) (G : gradient_table Key)
      (j : Key) (orders : list nat) :
  forall s : latent_table Key * Opt * list (call Key),
    (forall j' l' f,
        j' <> j \/ ~ In l' orders ->
        fst (fst (fold_left
                    (update_one Key_eq_dec update_after_pred sign nf g_loss
                       l1 l2 G j) orders s)) j' l' f
        = fst (fst s) j' l' f)
    /\ map call_pair
           (snd (fold_left
                   (update_one Key_eq_dec update_after_pred sign nf g_loss
                      l1 l2 G j) orders s))
       = map call_pair (snd s) ++ map (fun l => (j, l)) orders.
Proof.
  induction orders as [|l orders IH]; intros s.
  - simpl. split; [reflexivity | now rewrite app_nil_r].
  - cbn [fold_left].
    destruct (IH (update_one Key_eq_dec update_after_pred sign nf g_loss l1 l2
                    G j s l)) as [Hv Hc].
    destruct (update_one_frame nf g_loss l1 l2 G j l s) as [Hv1 Hc1].
    split.
    + intros j' l' f H. rewrite Hv.
      * apply Hv1. destruct H as [H|H]; [now left | right].
        intros ->. apply H. now left.
      * destruct H as [H|H]; [now left | right].
        intros Hin. apply H. now right.
    + rewrite Hc, Hc1, <- app_assoc. reflexivity.
Qed.

Lemma apply_updates_frame (nf : Z) (orders : list nat) (g_loss l1 l2 : R)
      (G : gradient_table Key) (ks : list Key) :
  forall s : latent_table Key * Opt * list (call Key),
    (forall j' l' f,
        ~ In j' ks \/ ~ In l' orders ->
        fst (fst (apply_updates Key_eq_dec update_after_pred sign nf orders
                    g_loss l1 l2 G ks s)) j' l' f
        = fst (fst s) j' l' f)
    /\ map call_pair
           (snd (apply_updates Key_eq_dec update_after_pred sign nf orders
                   g_loss l1 l2 G ks s))
       = map call_pair (snd s) ++ list_prod ks orders.
Proof.
  unfold apply_updates. induction ks as [|j ks IH]; intros s.
  - simpl. split; [reflexivity | now rewrite app_nil_r].
  - cbn [fold_left].
    destruct (IH (fold_left
                    (update_one Key_eq_dec update_after_pred sign nf g_loss
                       l1 l2 G j) orders s)) as [Hv Hc].
    destruct (orders_frame nf g_loss l1 l2 G j orders s) as [Hv1 Hc1].
    split.
    + intros j' l' f H. rewrite Hv.
      * apply Hv1. destruct H as [H|H]; [left | now right].
        intros ->. apply H. now left.
      * destruct H as [H|H]; [left | now right].
        intros Hin. apply H. now right.
    + rewrite Hc, Hc1, <- app_assoc. reflexivity.
Qed.

(** X14. A call of [_update_latents] that completes touches only the
    latent vectors of the keys of [x] at the orders 2 to [degree]: every
    other latent component, the weights, the regularisation, [n_factors]
    and [degree] are as before.  The optimizer is called for the keys of
    [x] in their order and, for each, for the orders in ascending order,
    and for nothing else: once per key and order when the keys are
    distinct. *)
Theorem update_latents_frame (self self' : HOFM.t Key Opt) (x : dict Key)
        (g_loss : R) (calls : list (call Key)) :
  _update_latents Key_eq_dec update_after_pred sign self x g_loss
  = Ok (self', calls) ->
  (forall j l f,
      ~ In j (keys x) \/ ~ In l (range 2 (degree self + 1)) ->
      latents (base self') j l f = latents (base self) j l f)
  /\ map call_pair calls = list_prod (keys x) (range 2 (degree self + 1))
  /\ (NoDup (keys x) -> NoDup (map call_pair calls))
  /\ length calls
     = (length (keys x) * length (range 2 (degree self + 1)))%nat
  /\ degree self' = degree self
  /\ n_factors (base self') = n_factors (base self)
  /\ weights (base self') = weights (base self)
  /\ l1_latent (base self') = l1_latent (base self)
  /\ l2_latent (base self') = l2_latent (base self).
Proof.
  unfold _update_latents. intros Hrun.
  destruct (accumulate_gradients Key_eq_dec self x) as [G|e]; [|discriminate].
  cbn [bind] in Hrun.
  destruct (apply_updates_frame (n_factors (base self))
              (range 2 (degree self + 1)) g_loss (l1_latent (base self))
              (l2_latent (base self)) G (keys x)
              (latents (base self), latent_optimizer (base self), []))
    as [Hv Hc].
  destruct (apply_updates Key_eq_dec update_after_pred sign
              (n_factors (base self)) (range 2 (degree self + 1)) g_loss
              (l1_latent (base self)) (l2_latent (base self)) G (keys x)
              (latents (base self), latent_optimizer (base self), []))
    as [[v' opt'] calls'].
  inversion Hrun; subst. simpl in *.
  split; [exact Hv|]. split; [exact Hc|]. split.
  { intros Hnd. rewrite Hc. apply list_prod_NoDup; [assumption|].
    apply seq_NoDup. }
  split.
  { rewrite <- (length_map call_pair), Hc. apply length_prod. }
  repeat split; reflexivity.
Qed.

(** *** Fewer than two features *)

Lemma for_each_unchanged {A S : Type} (items : list A)
      (body : A -> S -> result S) (s : S) :
  (forall a, In a items -> body a s = Ok s) ->
  for_each items body s = Ok s.
Proof.
  induction items as [|a items IH]; intros H; [reflexivity|]. simpl.
  rewrite (H a) by now left. simpl. apply IH. intros; apply H; now right.
Qed.

Lemma accumulate_gradients_few_keys (self : HOFM.t Key Opt) (x : dict Key) :
  (length (keys x) < 2)%nat ->
  accumulate_gradients Key_eq_dec self x = Ok no_gradients.
Proof.
  intros Hlen. unfold accumulate_gradients.
  apply for_each_unchanged. intros l Hl.
  rewrite combinations_short; [reflexivity|].
  apply range_ge in Hl. lia.
Qed.

Lemma few_keys_NoDup (ks : list Key) : (length ks < 2)%nat -> NoDup ks.
Proof.
  destruct ks as [|k [|k' ks]]; simpl; intros H; [constructor | | lia].
  constructor; [intros [] | constructor].
Qed.

(** X15. On an instance with fewer than two features [_update_latents] never
    raises, whatever the latent values, zero included: no gradient is
    accumulated, and the optimizer receives, for each key and order, the
    regularisation terms alone. *)
Theorem update_latents_few_keys (self : HOFM.t Key Opt) (x : dict Key)
        (g_loss : R) :
  (length (keys x) < 2)%nat ->
  exists self',
    _update_latents Key_eq_dec update_after_pred sign self x g_loss
    = Ok (self',
          flat_map
            (fun j =>
               map (fun l =>
                      (j, l,
                       map (fun f =>
                              l1_latent (base self)
                              * sign (latents (base self) j l f)
                              + 2 * l2_latent (base self)
                                * latents (base self) j l f)
                           (range 0 (n_factors (base self)))))
                   (range 2 (degree self + 1)))
            (keys x)).
Proof.
  intros Hlen. unfold _update_latents.
  rewrite accumulate_gradients_few_keys by assumption. cbn [bind].
  destruct (apply_updates_snapshot Key Key_eq_dec Opt update_after_pred sign
              (n_factors (base self)) (range 2 (degree self + 1)) g_loss
              (l1_latent (base self)) (l2_latent (base self)) no_gradients
              (latents (base self)) (keys x) (range_NoDup _ _)
              (few_keys_NoDup _ Hlen)
              (latents (base self)) (latent_optimizer (base self)) [])
    as (v' & opt' & Happ); [reflexivity|].
  rewrite Happ. eexists. simpl. f_equal. f_equal.
  unfold snapshot_calls. apply flat_map_ext. intros j.
  apply map_ext. intros l. f_equal. unfold penalised, no_gradients.
  apply map_ext. intros f. ring.
Qed.

(** *** The gradients of the linear weights *)

(** X16. [_calculate_weights_gradients] returns a dict with the keys of [x],
    in the same order; looking up a key of [x] gives
    [g_loss * x[j] + l1 * sign(w[j]) + l2 * w[j]], and looking up any
    other key is a [KeyError]. *)
Theorem calculate_weights_gradients_lookup (self : HOFM.t Key Opt)
        (x : dict Key) (g_loss : R) :
  NoDup (keys x) ->
  keys (_calculate_weights_gradients sign self x g_loss) = keys x
  /\ (forall j xj,
         In (j, xj) x ->
         getitem Key_eq_dec (_calculate_weights_gradients sign self x g_loss) j
         = Ok (g_loss * xj
               + l1_weight (base self) * sign (weights (base self) j)
               + l2_weight (base self) * weights (base self) j))
  /\ (forall j,
         ~ In j (keys x) ->
         getitem Key_eq_dec (_calculate_weights_gradients sign self x g_loss) j
         = Raise KeyError).
Proof.
  intros Hnd.
  assert (Hk : keys (_calculate_weights_gradients sign self x g_loss) = keys x).
  { unfold _calculate_weights_gradients, keys. rewrite map_map.
    apply map_ext. now intros [j xj]. }
  split; [exact Hk|]. split.
  - intros j xj Hin. apply getitem_present; [now rewrite Hk|].
    unfold _calculate_weights_gradients.
    apply in_map_iff. exists (j, xj). split; [reflexivity | assumption].
  - intros j Hnot. apply getitem_missing. now rewrite Hk.
Qed.

End Facts.
End HOFMUpdates.

Module HedgeSharedFacts.
Import Spec HedgeSpec PyFacts LoopFacts HedgeFacts HedgeShared.
Section Facts.
Variable X : Type.
Variable State : Type.
Variable member_predict_one : State -> X -> R.
Variable member_fit_one : State -> X -> R -> State.
Variable exp_overflows : R -> bool.

Lemma list_set_length {A : Type} (l : list A) : forall i a,
  length (list_set l i a) = length l.
Proof.
  induction l as [|b l IH]; intros [|i] a; simpl; auto.
Qed.

(** What a loop that completes has done. *)
Lemma member_loop_completed (self : t) (x : X) (y : R) :
  forall (members : list ref) (ws pre : list R)
         (s s' : loop_state State),
    NoDup members ->
    cur_weights s = pre ++ ws ->
    member_loop member_predict_one member_fit_one exp_overflows self x y
      (length pre) members s = Ok s' ->
    y_pred_mean s'
    = mean_pass (INR (length (models self)))
        (combine ws
           (map (fun r => member_predict_one (objects s r) x) members))
        (y_pred_mean s)
    /\ (forall r,
           In r members ->
           objects s' r = member_fit_one (objects s r) x y)
    /\ (forall r, ~ In r members -> objects s' r = objects s r)
    /\ length (cur_weights s') = length (cur_weights s).
Proof.
  induction members as [|r members IH]; intros ws pre s s' Hnd Hw Hrun.
  - simpl in Hrun. inversion Hrun; subst s'.
    destruct ws; simpl; repeat split; auto; intros r0 [].
  - inversion Hnd as [|? ? Hnotin Hnd']; subst.
    cbn [member_loop] in Hrun.
    destruct ws as [|w ws].
    { rewrite Hw, app_nil_r in Hrun. unfold list_get in Hrun.
      replace (nth_error pre (length pre)) with (@None R) in Hrun;
        [discriminate|].
      symmetry. apply nth_error_None. lia. }
    rewrite Hw, list_get_middle in Hrun. cbn [bind] in Hrun.
    destruct (truediv (w * (member_predict_one (objects s r) x - y_pred_mean s))
                      (INR (length (models self)))) as [d|e] eqn:Hd;
      [|discriminate].
    cbn [bind] in Hrun.
    destruct (math_exp exp_overflows
                (- learning_rate self
                 * loss self y (member_predict_one (objects s r) x)))
      as [e|err]; [|discriminate].
    cbn [bind] in Hrun. rewrite list_set_middle in Hrun.
    replace (S (length pre)) with (length (pre ++ [w * e])) in Hrun
      by (rewrite length_app; simpl; lia).
    apply (IH ws) in Hrun; [|assumption | cbn [cur_weights];
                                          now rewrite <- app_assoc].
    cbn [y_pred_mean objects cur_weights] in Hrun.
    destruct Hrun as (Hmean & Hin & Hout & Hlen).
    assert (Hd' : d = w * (member_predict_one (objects s r) x - y_pred_mean s)
                      / INR (length (models self))).
    { unfold truediv in Hd.
      destruct (Req_dec_T (INR (length (models self))) 0); [discriminate|].
      now inversion Hd. }
    split; [|split; [|split]].
    + rewrite Hmean. cbn [map combine mean_pass fold_left]. unfold mean_pass.
      rewrite Hd'. f_equal. f_equal. apply map_ext_in. intros r' Hr'.
      unfold heap_set. destruct (Nat.eq_dec r' r); [subst; contradiction|].
      reflexivity.
    + intros r' [<-|Hr'].
      * rewrite Hout by assumption. unfold heap_set.
        destruct (Nat.eq_dec r r); [reflexivity | congruence].
      * rewrite Hin by assumption. unfold heap_set.
        destruct (Nat.eq_dec r' r); [subst; contradiction | reflexivity].
    + intros r' Hr'. rewrite Hout by (intros H; apply Hr'; now right).
      unfold heap_set. destruct (Nat.eq_dec r' r); [|reflexivity].
      subst. exfalso. apply Hr'. now left.
    + rewrite Hlen, Hw, !length_app. simpl. lia.
Qed.

Lemma fit_predict_one_completed (self self' : t) (h h' : heap State)
      (x : X) (y p : R) :
  NoDup (models self) ->
  fit_predict_one member_predict_one member_fit_one exp_overflows self h x y
  = Ok (p, (self', h')) ->
  p = mean_pass (INR (length (models self)))
        (combine (weights self)
           (map (fun r => member_predict_one (h r) x) (models self)))
        0
  /\ (forall r, In r (models self) -> h' r = member_fit_one (h r) x y)
  /\ (forall r, ~ In r (models self) -> h' r = h r)
  /\ models self' = models self
  /\ loss self' = loss self
  /\ learning_rate self' = learning_rate self
  /\ length (weights self') = length (weights self).
Proof.
  intros Hnd Hrun. unfold fit_predict_one, run_loop in Hrun.
  destruct (member_loop member_predict_one member_fit_one exp_overflows self x y 0
              (models self)
              {| y_pred_mean := 0; total := 0;
                 cur_weights := weights self; objects := h |})
    as [s|e] eqn:Hloop; [|discriminate].
  cbn [bind] in Hrun. inversion Hrun; subst p self' h'.
  pose proof (member_loop_completed self x y (models self) (weights self) []
                {| y_pred_mean := 0; total := 0;
                   cur_weights := weights self; objects := h |}
                s Hnd eq_refl) as Hc.
  cbn [length] in Hc. destruct (Hc Hloop) as (Hmean & Hin & Hout & Hlen).
  cbn [y_pred_mean objects cur_weights] in *.
  repeat split; auto.
  cbn [weights]. now rewrite normalize_length.
Qed.

Lemma math_exp_returns (self : t) (y p : R) :
  no_overflow_below_zero exp_overflows -> 0 <= learning_rate self ->
  loss_is_nonnegative self ->
  math_exp exp_overflows (- learning_rate self * loss self y p)
  = Ok (exp (- learning_rate self * loss self y p)).
Proof.
  intros Hov Hlr Hloss. unfold math_exp. rewrite Hov; [reflexivity|].
  specialize (Hloss y p). nra.
Qed.

Lemma member_loop_returns (self : t) (x : X) (y : R) :
  no_overflow_below_zero exp_overflows -> 0 <= learning_rate self ->
  loss_is_nonnegative self ->
  forall (members : list ref) (ws pre : list R) (s : loop_state State),
    cur_weights s = pre ++ ws ->
    (length members <= length ws)%nat ->
    (members <> [] -> models self <> []) ->
    exists s',
      member_loop member_predict_one member_fit_one exp_overflows self x y
        (length pre) members s = Ok s'.
Proof.
  intros Hov Hlr Hloss.
  induction members as [|r members IH]; intros ws pre s Hw Hlen Hne.
  - now exists s.
  - destruct ws as [|w ws]; [simpl in Hlen; lia|].
    cbn [member_loop]. rewrite Hw, list_get_middle. cbn [bind].
    rewrite truediv_nonzero
      by (apply INR_length_nonzero, Hne; discriminate).
    cbn [bind].
    rewrite math_exp_returns by assumption.
    cbn [bind]. rewrite list_set_middle.
    match goal with
    | |- context [pre ++ ?a :: ws] =>
        replace (S (length pre)) with (length (pre ++ [a]))
          by (rewrite length_app; simpl; lia)
    end.
    apply (IH ws).
    + cbn [cur_weights]. now rewrite <- app_assoc.
    + simpl in Hlen. lia.
    + intros _. apply Hne. discriminate.
Qed.

Lemma fit_predict_one_returns (self : t) (h : heap State) (x : X) (y : R) :
  no_overflow_below_zero exp_overflows -> 0 <= learning_rate self ->
  loss_is_nonnegative self ->
  (length (models self) <= length (weights self))%nat ->
  exists p r,
    fit_predict_one member_predict_one member_fit_one exp_overflows self h x y
    = Ok (p, r).
Proof.
  intros Hov Hlr Hloss Hlen. unfold fit_predict_one, run_loop.
  pose proof (member_loop_returns self x y Hov Hlr Hloss (models self)
                (weights self)
                [] {| y_pred_mean := 0; total := 0;
                      cur_weights := weights self; objects := h |}
                eq_refl Hlen (fun H => H)) as [s' Hs].
  cbn [length] in Hs. rewrite Hs. cbn [bind]. eauto.
Qed.

Lemma fit_many_returns_shared (samples : list (X * R)) :
  no_overflow_below_zero exp_overflows ->
  forall (self : t) (h : heap State),
    0 <= learning_rate self -> loss_is_nonnegative self ->
    NoDup (models self) ->
    (length (models self) <= length (weights self))%nat ->
    exists self' h',
      fit_many member_predict_one member_fit_one exp_overflows self h samples
      = Ok (self', h').
Proof.
  intros Hov.
  induction samples as [|[x y] samples IH]; intros self h Hlr Hloss Hnd Hlen.
  - now exists self, h.
  - cbn [fit_many]. unfold fit_one.
    destruct (fit_predict_one_returns self h x y Hov Hlr Hloss Hlen)
      as (p & [s1 h1] & Hstep).
    rewrite Hstep. cbn [bind snd fst].
    destruct (fit_predict_one_completed _ _ _ _ _ _ _ Hnd Hstep)
      as (_ & _ & _ & Hm1 & Hl1 & Hr1 & Hw1).
    apply IH.
    + now rewrite Hr1.
    + unfold loss_is_nonnegative. now rewrite Hl1.
    + now rewrite Hm1.
    + rewrite Hm1, Hw1; assumption.
Qed.

(** X2. With distinct member objects, the prediction that
    [fit_predict_one] returns does not depend on the label: two calls
    from the same state that complete return the same prediction,
    whatever the labels.  With a learning rate and a loss that are not
    negative, and a weight for every member, the call completes. *)
Theorem fit_predict_one_prediction_ignores_label
        (self : t) (h : heap State) (x : X) :
  NoDup (models self) ->
  (forall y1 y2 p1 p2 r1 r2,
      fit_predict_one member_predict_one member_fit_one exp_overflows self h
        x y1 = Ok (p1, r1) ->
      fit_predict_one member_predict_one member_fit_one exp_overflows self h
        x y2 = Ok (p2, r2) ->
      p1 = p2)
  /\ (no_overflow_below_zero exp_overflows ->
      0 <= learning_rate self -> loss_is_nonnegative self ->
      (length (models self) <= length (weights self))%nat ->
      forall y, exists p r,
        fit_predict_one member_predict_one member_fit_one exp_overflows self
          h x y = Ok (p, r)).
Proof.
  intros Hnd. split.
  - intros y1 y2 p1 p2 [s1 h1] [s2 h2] H1 H2.
    destruct (fit_predict_one_completed _ _ _ _ _ _ _ Hnd H1) as [-> _].
    destruct (fit_predict_one_completed _ _ _ _ _ _ _ Hnd H2) as [-> _].
    reflexivity.
  - intros Hov Hlr Hloss Hlen y.
    now apply fit_predict_one_returns.
Qed.

Lemma fit_many_completed (samples : list (X * R)) :
  forall (self self' : t) (h h' : heap State),
    NoDup (models self) ->
    fit_many member_predict_one member_fit_one exp_overflows self h samples
    = Ok (self', h') ->
    (forall r, In r (models self) ->
               h' r = trained member_fit_one samples (h r))
    /\ (forall r, ~ In r (models self) -> h' r = h r)
    /\ models self' = models self
    /\ loss self' = loss self
    /\ learning_rate self' = learning_rate self
    /\ length (weights self') = length (weights self).
Proof.
  induction samples as [|[x y] samples IH]; intros self self' h h' Hnd Hrun.
  - simpl in Hrun. inversion Hrun; subst. simpl. repeat split; auto.
  - cbn [fit_many] in Hrun. unfold fit_one in Hrun.
    destruct (fit_predict_one member_predict_one member_fit_one exp_overflows
                self h x y) as [[p [s1 h1]]|e] eqn:Hstep; [|discriminate].
    cbn [bind snd fst] in Hrun.
    destruct (fit_predict_one_completed _ _ _ _ _ _ _ Hnd Hstep)
      as (_ & Hin1 & Hout1 & Hm1 & Hl1 & Hr1 & Hw1).
    apply IH in Hrun; [|now rewrite Hm1].
    destruct Hrun as (Hin & Hout & Hm & Hl & Hr & Hw).
    rewrite Hm1 in *. repeat split; try congruence.
    + intros r Hr'. rewrite Hin by assumption. simpl.
      now rewrite Hin1.
    + intros r Hr'. rewrite Hout by assumption. now apply Hout1.
Qed.

(** X1. When a stream of samples fed through [fit_one] to an ensemble of
    distinct member objects completes, every member has been trained on
    every sample, in order and once per sample, the objects outside the
    ensemble are untouched, and the member list, the loss, the learning
    rate and the number of weights are as before.  With a learning rate
    and a loss that are not negative, and a weight for every member, the
    stream completes. *)
Theorem fit_many_trains_every_member
        (self : t) (h : heap State) (samples : list (X * R)) :
  NoDup (models self) ->
  (forall self' h',
      fit_many member_predict_one member_fit_one exp_overflows self h samples
      = Ok (self', h') ->
      (forall r, In r (models self) ->
                 h' r = trained member_fit_one samples (h r))
      /\ (forall r, ~ In r (models self) -> h' r = h r)
      /\ models self' = models self
      /\ loss self' = loss self
      /\ learning_rate self' = learning_rate self
      /\ length (weights self') = length (weights self))
  /\ (no_overflow_below_zero exp_overflows ->
      0 <= learning_rate self -> loss_is_nonnegative self ->
      (length (models self) <= length (weights self))%nat ->
      exists self' h',
        fit_many member_predict_one member_fit_one exp_overflows self h
          samples = Ok (self', h')).
Proof.
  intros Hnd. split.
  - intros self' h' Hrun. exact (fit_many_completed samples _ _ _ _ Hnd Hrun).
  - intros Hov Hlr Hloss Hlen. now apply fit_many_returns_shared.
Qed.

End Facts.
End HedgeSharedFacts.

Module LazyFacts.
Import Spec PyFacts LoopFacts HOFMFacts HOFMInteractions LazyLatents.
Section Facts.
Variable Key : Type.
Variable Key_eq_dec : forall a b : Key, {a = b} + {a <> b}.
Variable Gen : Type.
Variable latent_initializer : Gen -> Z -> (nat -> R) * Gen.

Lemma Rsum_map_flat_map {A B : Type} (h : B -> R) (g : A -> list B)
      (items : list A) :
  Rsum (map h (flat_map g items))
  = Rsum (map (fun a => Rsum (map h (g a))) items).
Proof.
  induction items as [|a items IH]; simpl; [reflexivity|].
  now rewrite map_app, Rsum_app, IH.
Qed.

Lemma lookup_present (nf : Z) (j : Key) (l : nat) (st : LazyLatents.store Key Gen) :
  fst st j l <> None ->
  lookup Key_eq_dec latent_initializer nf j l st
  = (fun f => stored (fst st) j l f, st).
Proof.
  intros H. unfold lookup, stored.
  destruct (fst st j l) as [w|]; [reflexivity | congruence].
Qed.

Lemma reduce_latents_from_present (nf : Z) (l f : nat) (C : list Key)
      (st : LazyLatents.store Key Gen) :
  (forall j, In j C -> fst st j l <> None) ->
  forall acc,
    reduce_latents_from Key_eq_dec latent_initializer acc nf l f C st
    = (acc * Rprod (map (fun j => stored (fst st) j l f) C), st).
Proof.
  induction C as [|j C IH]; intros H acc; simpl.
  - f_equal. ring.
  - rewrite lookup_present by (apply H; now left).
    rewrite IH by (intros; apply H; now right). f_equal. ring.
Qed.

Lemma reduce_latents_present (nf : Z) (l f : nat) (C : list Key)
      (st : LazyLatents.store Key Gen) :
  C <> [] -> (forall j, In j C -> fst st j l <> None) ->
  reduce_latents Key_eq_dec latent_initializer nf l f C st
  = Ok (Rprod (map (fun j => stored (fst st) j l f) C), st).
Proof.
  intros Hne H. destruct C as [|j C]; [congruence|]. simpl.
  rewrite lookup_present by (apply H; now left).
  rewrite reduce_latents_from_present by (intros; apply H; now right).
  reflexivity.
Qed.

Lemma sum_latents_from_present (nf : Z) (l : nat) (C : list Key)
      (st : LazyLatents.store Key Gen) (fs : list nat) :
  C <> [] -> (forall j, In j C -> fst st j l <> None) ->
  forall acc,
    sum_latents_from Key_eq_dec latent_initializer acc nf l C fs st
    = Ok (acc + Rsum (map (fun f =>
                             Rprod (map (fun j => stored (fst st) j l f) C))
                          fs),
          st).
Proof.
  intros Hne H. induction fs as [|f fs IH]; intros acc; simpl.
  - do 2 f_equal. ring.
  - rewrite reduce_latents_present by assumption. cbn [bind].
    rewrite IH. do 2 f_equal. ring.
Qed.

Lemma calculate_interaction_present (nf : Z) (x : dict Key) (l : nat)
      (C : list Key) (st : LazyLatents.store Key Gen) :
  C <> [] -> incl C (keys x) ->
  (forall j, In j C -> fst st j l <> None) ->
  LazyLatents._calculate_interaction Key_eq_dec latent_initializer nf x l C st
  = Ok (combination_term Key_eq_dec (stored (fst st)) nf x l C, st).
Proof.
  intros Hne Hin H. unfold LazyLatents._calculate_interaction.
  rewrite feature_product_Ok by assumption. cbn [bind].
  rewrite sum_latents_from_present by assumption. cbn [bind].
  unfold combination_term. do 2 f_equal. ring.
Qed.

Lemma sum_interactions_from_present (nf : Z) (x : dict Key) (st : LazyLatents.store Key Gen)
      (items : list (nat * list Key)) :
  (forall l C, In (l, C) items ->
               C <> [] /\ incl C (keys x)
               /\ forall j, In j C -> fst st j l <> None) ->
  forall acc,
    sum_interactions_from Key_eq_dec latent_initializer acc nf x items st
    = Ok (acc + Rsum (map (fun '(l, C) =>
                             combination_term Key_eq_dec (stored (fst st))
                               nf x l C)
                          items),
          st).
Proof.
  induction items as [|[l C] items IH]; intros H acc; simpl.
  - do 2 f_equal. ring.
  - destruct (H l C) as (Hne & Hin & Hpres); [now left|].
    rewrite calculate_interaction_present by assumption. cbn [bind].
    rewrite IH by (intros; apply H; now right). do 2 f_equal. ring.
Qed.

Lemma calculate_interactions_materialised (nf degree : Z) (x : dict Key)
      (st : LazyLatents.store Key Gen) :
  materialised (fst st) degree x ->
  LazyLatents._calculate_interactions Key_eq_dec latent_initializer nf degree
    x st
  = Ok (interaction_sum Key_eq_dec (stored (fst st)) nf degree x, st).
Proof.
  intros Hm. unfold LazyLatents._calculate_interactions.
  rewrite sum_interactions_from_present.
  - do 2 f_equal. rewrite Rplus_0_l. unfold interaction_sum.
    rewrite Rsum_map_flat_map. apply Rsum_map_ext_in. intros l _.
    unfold order_term. rewrite <- combinations_subsets, map_map.
    reflexivity.
  - intros l C Hin. apply in_flat_map in Hin as (l0 & Hl0 & Hin).
    apply in_map_iff in Hin as (C0 & E & HC0). inversion E; subst l0 C0.
    split.
    + apply (combination_nonempty _ (keys x) l); [|assumption].
      apply range_ge in Hl0. lia.
    + split; [now apply (combinations_incl _ l)|].
      intros j Hj. apply Hm; [|assumption].
      now apply (combinations_incl _ l C HC0).
Qed.

Lemma interaction_sum_ext (v v' : Key -> nat -> nat -> R) (nf degree : Z)
      (x : dict Key) :
  (forall j l f,
      In j (keys x) -> In l (range 2 (degree + 1)) -> v j l f = v' j l f) ->
  interaction_sum Key_eq_dec v nf degree x
  = interaction_sum Key_eq_dec v' nf degree x.
Proof.
  intros H. unfold interaction_sum. apply Rsum_map_ext_in. intros l Hl.
  unfold order_term. apply Rsum_map_ext_in. intros C HC.
  rewrite <- combinations_subsets in HC.
  unfold combination_term. f_equal. apply Rsum_map_ext_in. intros f _.
  f_equal. apply map_ext_in. intros j Hj. apply H; [|assumption].
  now apply (combinations_incl _ l C HC).
Qed.

(** X17. When every latent vector the instance needs has been created,
    [_calculate_interactions] creates none: it leaves [self.latents] and
    the initializer as they were, and returns what the interaction sum
    over a fixed table of those vectors gives. *)
Theorem calculate_interactions_reads_only (nf degree : Z) (x : dict Key)
        (st : LazyLatents.store Key Gen) :
  materialised (fst st) degree x ->
  exists a,
    LazyLatents._calculate_interactions Key_eq_dec latent_initializer nf
      degree x st = Ok (a, st)
    /\ forall (Opt : Type) (self : HOFM.t Key Opt),
        HOFM.n_factors (HOFM.base self) = nf ->
        HOFM.degree self = degree ->
        (forall j l f,
            In j (keys x) -> In l (range 2 (degree + 1)) ->
            HOFM.latents (HOFM.base self) j l f = stored (fst st) j l f) ->
        HOFM._calculate_interactions Key_eq_dec self x = Ok a.
Proof.
  intros Hm. eexists. split.
  - now apply calculate_interactions_materialised.
  - intros Opt self Hnf Hd Hv. rewrite calculate_interactions_sum, Hnf, Hd.
    f_equal. now apply interaction_sum_ext.
Qed.

Lemma materialised_incl (T : LazyLatents.table Key) (degree : Z)
      (x x' : dict Key) :
  incl (keys x') (keys x) ->
  materialised T degree x -> materialised T degree x'.
Proof. intros Hi Hm j l Hj Hl. apply Hm; auto. Qed.

(** X9. When every latent vector involved has been created, adding a
    feature of value 0 to an instance, anywhere among its keys, changes
    neither the value of [_calculate_interactions] nor what it leaves in
    [self.latents]. *)
Theorem calculate_interactions_zero_feature (nf degree : Z)
        (x1 x2 : dict Key) (k : Key) (st : LazyLatents.store Key Gen) :
  ~ In k (keys x1) -> ~ In k (keys x2) ->
  materialised (fst st) degree (x1 ++ (k, 0) :: x2) ->
  LazyLatents._calculate_interactions Key_eq_dec latent_initializer nf degree
    (x1 ++ (k, 0) :: x2) st
  = LazyLatents._calculate_interactions Key_eq_dec latent_initializer nf
      degree (x1 ++ x2) st
  /\ exists a,
      LazyLatents._calculate_interactions Key_eq_dec latent_initializer nf
        degree (x1 ++ x2) st = Ok (a, st).
Proof.
  intros H1 H2 Hm.
  assert (Hm' : materialised (fst st) degree (x1 ++ x2)).
  { apply (materialised_incl _ _ (x1 ++ (k, 0) :: x2)); [|assumption].
    unfold keys. rewrite !map_app. simpl. intros j Hj.
    apply in_app_or in Hj. apply in_or_app. simpl. tauto. }
  rewrite !calculate_interactions_materialised by assumption.
  split; [|eauto]. do 2 f_equal. now apply interaction_sum_zero_feature.
Qed.

(** X10. When every latent vector involved has been created,
    [_calculate_interactions] does not depend on the order in which the
    instance lists its features, and leaves [self.latents] as it was. *)
Theorem calculate_interactions_key_order (nf degree : Z) (x x' : dict Key)
        (st : LazyLatents.store Key Gen) :
  NoDup (keys x) -> Permutation x x' ->
  materialised (fst st) degree x ->
  LazyLatents._calculate_interactions Key_eq_dec latent_initializer nf degree
    x st
  = LazyLatents._calculate_interactions Key_eq_dec latent_initializer nf
      degree x' st
  /\ exists a,
      LazyLatents._calculate_interactions Key_eq_dec latent_initializer nf
        degree x' st = Ok (a, st).
Proof.
  intros Hnd Hp Hm.
  assert (Hm' : materialised (fst st) degree x').
  { apply (materialised_incl _ _ x); [|assumption].
    intros j Hj. apply (Permutation_in (l := keys x')); [|assumption].
    unfold keys. apply Permutation_map. now apply Permutation_sym. }
  rewrite !calculate_interactions_materialised by assumption.
  split; [|eauto]. do 2 f_equal. now apply interaction_sum_key_order.
Qed.

(** X18. A latent vector, once read, stays: a second read of
    [self.latents[j][l]] returns the same vector and touches neither the
    table nor the initializer, and the first read changes no other
    entry. *)
Theorem lookup_is_stable (nf : Z) (j : Key) (l : nat)
        (st : LazyLatents.store Key Gen) :
  lookup Key_eq_dec latent_initializer nf j l
    (snd (lookup Key_eq_dec latent_initializer nf j l st))
  = lookup Key_eq_dec latent_initializer nf j l st
  /\ (forall j' l',
         (j' <> j \/ l' <> l) ->
         fst (snd (lookup Key_eq_dec latent_initializer nf j l st)) j' l'
         = fst st j' l').
Proof.
  unfold lookup. destruct (fst st j l) as [w|] eqn:E.
  - simpl. rewrite E. auto.
  - destruct (latent_initializer (snd st) nf) as [w g]. simpl.
    unfold table_add. split.
    + destruct (Key_eq_dec j j); [|congruence].
      destruct (Nat.eq_dec l l); [reflexivity | congruence].
    + intros j' l' [H|H].
      * destruct (Key_eq_dec j' j); [contradiction | reflexivity].
      * destruct (Key_eq_dec j' j); [|reflexivity].
        destruct (Nat.eq_dec l' l); [contradiction | reflexivity].
Qed.

End Facts.
End LazyFacts.

(** ** The further properties at concrete inputs *)

Module MoreInstances.
Import Spec HedgeSpec GradientSpec UpdateSpec Examples MoreExamples
       FurtherExamples PyFacts LoopFacts HOFMFacts HOFMUpdate HOFMSnapshot
       HedgeFacts HedgeProperties HedgeMore HedgePredict HOFMInteractions
       HOFMGradients HOFMUpdates NumpyFacts HedgeSharedFacts LazyFacts.
Local Open Scope string_scope.

Lemma x_two_keys_NoDup : NoDup (keys x_two).
Proof. repeat constructor; simpl; intuition discriminate. Qed.

Lemma all_ones_nonzero (self : HOFM.t string unit) (x : dict string) :
  HOFM.latents (HOFM.base self) = all_ones ->
  forall (j : string) (l f : nat),
    In j (keys x) -> In l (range 2 (HOFM.degree self + 1)) ->
    In f (range 0 (HOFM.n_factors (HOFM.base self))) ->
    HOFM.latents (HOFM.base self) j l f <> 0.
Proof. intros -> j l f _ _ _. unfold all_ones. lra. Qed.

Lemma above_709_below_zero : HedgeShared.no_overflow_below_zero above_709.
Proof.
  intros a Ha. unfold above_709. destruct (Rlt_dec 709 a); [lra | reflexivity].
Qed.

Lemma squared_nonnegative : HedgeShared.loss_is_nonnegative two_objects.
Proof. intros y p. simpl. unfold squared. apply pow2_ge_0. Qed.

Lemma two_objects_rate : 0 <= HedgeShared.learning_rate two_objects.
Proof. simpl. lra. Qed.

Lemma two_objects_NoDup : NoDup (HedgeShared.models two_objects).
Proof. repeat constructor; simpl; intuition discriminate. Qed.

Lemma fit_many_trains_every_member_witness :
  exists self' h',
    HedgeShared.fit_many constant_predict recall_fit above_709 two_objects
      object_values [(tt, 3); (tt, 4)] = Ok (self', h')
    /\ (forall r, In r (HedgeShared.models two_objects) ->
                  h' r = trained recall_fit [(tt, 3); (tt, 4)]
                           (object_values r))
    /\ (forall r, ~ In r (HedgeShared.models two_objects) ->
                  h' r = object_values r)
    /\ HedgeShared.models self' = HedgeShared.models two_objects
    /\ HedgeShared.loss self' = HedgeShared.loss two_objects
    /\ HedgeShared.learning_rate self'
       = HedgeShared.learning_rate two_objects
    /\ length (HedgeShared.weights self')
       = length (HedgeShared.weights two_objects).
Proof.
  destruct (fit_many_trains_every_member unit R constant_predict recall_fit
              above_709 two_objects object_values [(tt, 3); (tt, 4)]
              two_objects_NoDup) as [Hdone Hruns].
  destruct (Hruns above_709_below_zero two_objects_rate squared_nonnegative
              (le_n 2)) as (self' & h' & Hrun).
  exists self', h'. split; [exact Hrun | exact (Hdone self' h' Hrun)].
Defined.

Lemma fit_predict_one_prediction_ignores_label_witness :
  exists p r1 r2,
    HedgeShared.fit_predict_one constant_predict recall_fit above_709
      two_objects object_values tt 0 = Ok (p, r1)
    /\ HedgeShared.fit_predict_one constant_predict recall_fit above_709
         two_objects object_values tt 5 = Ok (p, r2).
Proof.
  destruct (fit_predict_one_prediction_ignores_label unit R constant_predict
              recall_fit above_709 two_objects object_values tt
              two_objects_NoDup) as [Hsame Hruns].
  destruct (Hruns above_709_below_zero two_objects_rate squared_nonnegative
              (le_n 2) 0) as (p1 & r1 & H1).
  destruct (Hruns above_709_below_zero two_objects_rate squared_nonnegative
              (le_n 2) 5) as (p2 & r2 & H2).
  exists p1, r1, r2. split; [exact H1|].
  rewrite (Hsame 0 5 p1 p2 r1 r2 H1 H2). exact H2.
Defined.

Lemma fit_predict_one_missing_weight_witness :
  HedgeRegressor.fit_predict_one constant_predict constant_fit
    (hedge_with [1; 0] [1]) tt 0 = Raise IndexError
  /\ HedgeRegressor.fit_one constant_predict constant_fit
       (hedge_with [1; 0] [1]) tt 0 = Raise IndexError.
Proof.
  apply (fit_predict_one_missing_weight unit R constant_predict constant_fit
           (hedge_with [1; 0] [1]) tt 0).
  simpl. lia.
Defined.

Lemma predict_one_within_member_range_witness :
  exists self' p,
    HedgeRegressor.fit_many constant_predict constant_fit
      (HedgeRegressor.__init__ squared [1; 0] None (1 / 2))
      [(tt, 0); (tt, 1)] = Ok self'
    /\ positive (HedgeRegressor.weights self')
    /\ Rsum (HedgeRegressor.weights self') = 1
    /\ HedgeRegressor.predict_one constant_predict self' tt = Ok p
    /\ 0 <= p <= 1.
Proof.
  apply (predict_one_within_member_range unit R constant_predict constant_fit
           squared [1; 0] None (1 / 2) tt 0 [(tt, 1)] tt 0 1).
  - discriminate.
  - intros r [<-|[<-|[]]]; unfold constant_predict; simpl;
      unfold constant_fit; lra.
Defined.

Lemma equal_losses_keep_weights_witness :
  exists p self',
    HedgeRegressor.fit_predict_one constant_predict constant_fit
      (hedge_with [1; 1] [1 / 2; 1 / 2]) tt 0 = Ok (p, self')
    /\ HedgeRegressor.weights self' = [1 / 2; 1 / 2].
Proof.
  apply (equal_losses_keep_weights unit R constant_predict constant_fit
           (hedge_with [1; 1] [1 / 2; 1 / 2]) tt 0 1).
  - reflexivity.
  - unfold Rsum. simpl. lra.
  - intros r [<-|[<-|[]]];
      unfold hedge_with, hedge, with_weights, squared, constant_predict;
      simpl; lra.
Defined.

Lemma weights_scale_is_irrelevant_witness :
  exists p q self',
    HedgeRegressor.fit_predict_one constant_predict constant_fit
      (hedge [1; 0]) tt 0 = Ok (p, self')
    /\ HedgeRegressor.fit_predict_one constant_predict constant_fit
         (hedge_with [1; 0] [2 * 1; 2 * 1]) tt 0 = Ok (q, self').
Proof.
  apply (weights_scale_is_irrelevant unit R constant_predict constant_fit
           (hedge [1; 0]) tt 0 2).
  - reflexivity.
  - lra.
  - unfold post_update_weights, update_factor, Rsum. simpl.
    assert (H1 := exp_pos (- (1 / 2) * squared 0 (constant_predict 1 tt))).
    assert (H2 := exp_pos (- (1 / 2) * squared 0 (constant_predict 0 tt))).
    lra.
Defined.

Lemma calculate_interaction_errors_witness :
  HOFM._calculate_interaction string_dec (machine all_ones 2 1) x_two 2
    ["user"; "time"] = Raise KeyError.
Proof.
  apply (proj2 (calculate_interaction_errors string string_dec unit
                  (machine all_ones 2 1) x_two 2) ["user"; "time"] "time").
  - simpl. auto.
  - simpl. intuition discriminate.
Defined.

Lemma full_table_materialised (degree : Z) (x : dict string) (g : nat) :
  LazyLatents.materialised (fst (full_table, g)) degree x.
Proof. intros j l _ _. discriminate. Qed.

Lemma calculate_interactions_zero_feature_witness :
  LazyLatents._calculate_interactions string_dec counting_initializer 1 3
    (x_one ++ ("time", 0) :: [("item", 1)])%list (full_table, 0%nat)
  = LazyLatents._calculate_interactions string_dec counting_initializer 1 3
      (x_one ++ [("item", 1)])%list (full_table, 0%nat)
  /\ exists a,
      LazyLatents._calculate_interactions string_dec counting_initializer 1 3
        (x_one ++ [("item", 1)])%list (full_table, 0%nat)
      = Ok (a, (full_table, 0%nat)).
Proof.
  apply (calculate_interactions_zero_feature string string_dec nat
           counting_initializer 1 3 x_one [("item", 1)] "time"
           (full_table, 0%nat)).
  - simpl. intuition discriminate.
  - simpl. intuition discriminate.
  - apply full_table_materialised.
Defined.

Lemma calculate_interactions_key_order_witness :
  LazyLatents._calculate_interactions string_dec counting_initializer 1 3
    x_two (full_table, 0%nat)
  = LazyLatents._calculate_interactions string_dec counting_initializer 1 3
      x_two_swapped (full_table, 0%nat)
  /\ exists a,
      LazyLatents._calculate_interactions string_dec counting_initializer 1 3
        x_two_swapped (full_table, 0%nat)
      = Ok (a, (full_table, 0%nat)).
Proof.
  apply (calculate_interactions_key_order string string_dec nat
           counting_initializer 1 3 x_two x_two_swapped (full_table, 0%nat)).
  - exact x_two_keys_NoDup.
  - apply perm_swap.
  - apply full_table_materialised.
Defined.

Lemma accumulate_gradients_agree_witness :
  exists G N,
    HOFM.accumulate_gradients string_dec (machine all_ones 2 1) x_two = Ok G
    /\ Numpy.accumulate_gradients string_dec (machine all_ones 2 1) x_two
       = Ok N
    /\ forall j l f, N j l f = Numpy.Finite (G j l f).
Proof.
  destruct (accumulate_gradients_returns string string_dec unit
              (machine all_ones 2 1) x_two) as [G HG].
  { intros j l f _ _ _. simpl. unfold all_ones. lra. }
  destruct (accumulate_gradients_agree string string_dec unit
              (machine all_ones 2 1) x_two G HG) as (N & HN & Hc).
  exists G, N. split; [exact HG|]. split; [exact HN | exact Hc].
Defined.

Lemma calculate_interactions_reads_only_witness :
  exists a,
    LazyLatents._calculate_interactions string_dec counting_initializer 1 3
      x_three (full_table, 0%nat) = Ok (a, (full_table, 0%nat))
    /\ HOFM._calculate_interactions string_dec (machine all_ones 3 1) x_three
       = Ok a.
Proof.
  destruct (calculate_interactions_reads_only string string_dec nat
              counting_initializer 1 3 x_three (full_table, 0%nat)
              (full_table_materialised 3 x_three 0%nat))
    as (a & Hrun & Hsame).
  exists a. split; [exact Hrun|].
  apply (Hsame unit (machine all_ones 3 1)); reflexivity.
Defined.

Lemma calculate_interactions_degree_above_keys_witness :
  HOFM._calculate_interactions string_dec (machine all_ones 2 1) x_two
  = HOFM._calculate_interactions string_dec (machine all_ones 5 1) x_two.
Proof.
  apply (calculate_interactions_degree_above_keys string string_dec unit
           (machine all_ones 2 1) (machine all_ones 5 1) x_two).
  - reflexivity.
  - simpl. lia.
  - simpl. lia.
Defined.

Lemma accumulate_gradients_closed_form_witness :
  exists G,
    HOFM.accumulate_gradients string_dec (machine all_ones 3 1) x_three = Ok G
    /\ G "user" 2%nat 0%nat
       = gradient_sum string_dec all_ones x_three 2 0 "user"
    /\ G "user" 7%nat 0%nat = 0.
Proof.
  destruct (accumulate_gradients_returns string string_dec unit
              (machine all_ones 3 1) x_three
              (all_ones_nonzero (machine all_ones 3 1) x_three eq_refl))
    as [G HG].
  exists G. split; [exact HG|].
  split.
  - apply (proj1 (accumulate_gradients_closed_form string string_dec unit
                    (machine all_ones 3 1) x_three G HG "user" 2%nat 0%nat)).
    + simpl. auto.
    + simpl. auto.
  - apply (proj1 (proj2 (accumulate_gradients_closed_form string string_dec
                           unit (machine all_ones 3 1) x_three G HG
                           "user" 7%nat 0%nat))).
    simpl. lia.
Defined.

Lemma accumulate_gradients_product_of_others_witness :
  exists G,
    HOFM.accumulate_gradients string_dec (machine all_ones 3 1) x_three = Ok G
    /\ forall j l f,
        In l (range 2 (3 + 1)) -> In f (range 0 1) ->
        G j l f
        = Rsum (map (fun C =>
                       if in_dec string_dec j C then
                         Rprod (map (value string_dec x_three) C)
                         * Rprod (map (fun k => all_ones k l f)
                                      (remove string_dec j C))
                       else 0)
                    (combinations (keys x_three) l)).
Proof.
  apply (accumulate_gradients_product_of_others string string_dec unit
           (machine all_ones 3 1) x_three).
  - exact Instances.x_three_keys_NoDup.
  - exact (all_ones_nonzero (machine all_ones 3 1) x_three eq_refl).
Defined.

Lemma update_latents_frame_witness :
  exists self' calls,
    HOFM._update_latents string_dec sgd_step sign (machine all_ones 3 1)
      x_two 1 = Ok (self', calls)
    /\ (forall j l f,
           ~ In j (keys x_two) \/ ~ In l (range 2 (3 + 1)) ->
           HOFM.latents (HOFM.base self') j l f = all_ones j l f)
    /\ map call_pair calls
       = [("user", 2%nat); ("user", 3%nat); ("item", 2%nat); ("item", 3%nat)]
    /\ NoDup (map call_pair calls).
Proof.
  destruct (accumulate_gradients_returns string string_dec unit
              (machine all_ones 3 1) x_two
              (all_ones_nonzero (machine all_ones 3 1) x_two eq_refl))
    as [G HG].
  assert (H : exists self' calls,
             HOFM._update_latents string_dec sgd_step sign
               (machine all_ones 3 1) x_two 1 = Ok (self', calls)).
  { unfold HOFM._update_latents. rewrite HG. cbn [bind].
    destruct (HOFM.apply_updates _ _ _ _ _ _ _ _ _ _ _) as [[v' opt'] calls].
    eexists. eexists. reflexivity. }
  destruct H as (self' & calls & H). exists self', calls.
  split; [exact H|].
  destruct (update_latents_frame string string_dec unit sgd_step sign
              (machine all_ones 3 1) self' x_two 1 calls H)
    as (Hv & Hc & Hn & _).
  split; [exact Hv|]. split; [exact Hc | exact (Hn x_two_keys_NoDup)].
Defined.

Lemma update_latents_few_keys_witness :
  exists self',
    HOFM._update_latents string_dec sgd_step sign (machine user_zero 3 1)
      x_one 1
    = Ok (self',
          [("user", 2%nat, [0 * sign (user_zero "user" 2%nat 0%nat)
                            + 2 * 0 * user_zero "user" 2%nat 0%nat]);
           ("user", 3%nat, [0 * sign (user_zero "user" 3%nat 0%nat)
                            + 2 * 0 * user_zero "user" 3%nat 0%nat])]).
Proof.
  apply (update_latents_few_keys string string_dec unit sgd_step sign
           (machine user_zero 3 1) x_one 1).
  simpl. lia.
Defined.

Lemma calculate_weights_gradients_lookup_witness :
  keys (HOFM._calculate_weights_gradients sign (machine all_ones 3 1) x_two 2)
  = keys x_two
  /\ getitem string_dec
       (HOFM._calculate_weights_gradients sign (machine all_ones 3 1) x_two 2)
       "item"
     = Ok (2 * 1 + 0 * sign 0 + 0 * 0)
  /\ getitem string_dec
       (HOFM._calculate_weights_gradients sign (machine all_ones 3 1) x_two 2)
       "time"
     = Raise KeyError.
Proof.
  destruct (calculate_weights_gradients_lookup string string_dec unit sign
              (machine all_ones 3 1) x_two 2 x_two_keys_NoDup)
    as (Hk & Hin & Hout).
  split; [exact Hk|]. split.
  - apply (Hin "item" 1). simpl. auto.
  - apply Hout. simpl. intuition discriminate.
Defined.

End MoreInstances.
